(** * optoifocad: the Optocad tokenizer and packrat parser

    A shallow embedding of [optoifocad/tokenizer.py], [optoifocad/parser.py],
    [optoifocad/containers.py] and [optoifocad/exceptions.py], and the
    properties of the lexer and of the grammar that the specification states.

    Python objects become records, the generator of the tokenizer becomes the
    list of tokens it yields together with the way it ends, the parser's
    attributes become an explicit state threaded through a state-and-exception
    monad, and [getattr(self, production)()] becomes a dispatch on an
    enumeration of the productions. *)

From Stdlib Require Import String Ascii List Arith Bool Lia Sorted.
Import ListNotations.
Open Scope list_scope.
Open Scope string_scope.

Set Implicit Arguments.

(** ** Characters and strings *)

Definition LF : ascii := "010"%char.
Definition CR : ascii := "013"%char.
Definition nl : string := String LF EmptyString.
Definition TAB : ascii := "009"%char.
Definition SPACE : ascii := " "%char.

(** [str.count(c)] for a one-character needle. *)
Fixpoint count (c : ascii) (s : string) : nat :=
  match s with
  | EmptyString => 0
  | String c' s' => (if Ascii.eqb c' c then 1 else 0) + count c s'
  end.

(** [s[-1]], when [s] is not empty. *)
Fixpoint last_char (s : string) : option ascii :=
  match s with
  | EmptyString => None
  | String c EmptyString => Some c
  | String _ s' => last_char s'
  end.

(** [c in s] for a character. *)
Fixpoint char_in (c : ascii) (s : string) : bool :=
  match s with
  | EmptyString => false
  | String c' s' => Ascii.eqb c c' || char_in c s'
  end.

(** [set(s) <= set(alphabet)]. *)
Fixpoint chars_subset (s alphabet : string) : bool :=
  match s with
  | EmptyString => true
  | String c s' => char_in c alphabet && chars_subset s' alphabet
  end.

(** The successive results of [fobj.readline()] on a text stream whose line
    terminator is the line feed: every line keeps its terminator, the last one
    may lack it, and the empty string that marks the end of the file is left
    out. *)
Fixpoint readlines (s : string) : list string :=
  match s with
  | EmptyString => []
  | String c r =>
      if Ascii.eqb c LF then String c EmptyString :: readlines r
      else match readlines r with
           | [] => [String c EmptyString]
           | l :: ls => String c l :: ls
           end
  end.

(** ** Tokens *)

(** The keys of [_TOKEN_RULES]: the five named patterns, then the keys of
    [LITERALS]. *)
Inductive rule : Set :=
| NEWLINE | COMMENT | NUMBER | STRING | NAME
| COMMA | EQUALS | PLUS | MINUS | TIMES | DIVIDE | FLOORDIVIDE | POWER
| LPAREN | RPAREN | LBRACKET | RBRACKET | LBRACE | RBRACE.

(** What [Token.type] holds: the name of the rule that matched, or one of the
    two names the tokenizer uses by itself. *)
Inductive token_type : Set :=
| Rule (r : rule)
| ENDMARKER
| ERROR.

Coercion Rule : rule >-> token_type.

Definition rule_eqb (a b : rule) : bool :=
  match a, b with
  | NEWLINE, NEWLINE | COMMENT, COMMENT | NUMBER, NUMBER | STRING, STRING
  | NAME, NAME | COMMA, COMMA | EQUALS, EQUALS | PLUS, PLUS | MINUS, MINUS
  | TIMES, TIMES | DIVIDE, DIVIDE | FLOORDIVIDE, FLOORDIVIDE | POWER, POWER
  | LPAREN, LPAREN | RPAREN, RPAREN | LBRACKET, LBRACKET
  | RBRACKET, RBRACKET | LBRACE, LBRACE | RBRACE, RBRACE => true
  | _, _ => false
  end.

Definition token_type_eqb (a b : token_type) : bool :=
  match a, b with
  | Rule r, Rule r' => rule_eqb r r'
  | ENDMARKER, ENDMARKER => true
  | ERROR, ERROR => true
  | _, _ => false
  end.

(** The dataclass [Token]; [value] is [None] for the two tokens the tokenizer
    builds without a match. *)
Record Token : Set := mkToken {
  lineno : nat;
  start_index : nat;
  stop_index : nat;
  type : token_type;
  value : option string
}.

(** ** Exceptions *)

(** The Python values that reach the constructor of an exception. *)
Inductive pyobj : Set :=
| PyNone
| PyStr (s : string)
| PyInt (n : nat)
| PyAttr (cls attr : string)      (* the value of an attribute that exists *)
| PyTok (t : Token)
| PyTuple4 (a b c d : pyobj).

Definition py_of_value (v : option string) : pyobj :=
  match v with Some s => PyStr s | None => PyNone end.

Inductive exn : Set :=
| AttributeError (cls attr : string)
| TypeError (what : string)
| StopIteration
| IndexError
| OptocadSyntaxError
    (message filename lineno index text end_lineno end_index : pyobj).

(** The call of the class [OptocadSyntaxError]: [__init__] takes [message], [filename],
    [lineno], [index] and [text], and optionally [end_lineno] and [end_index];
    any other number of positional arguments is a [TypeError] of the call. *)
Definition OptocadSyntaxError_new (args : list pyobj) : exn + exn :=
  match args with
  | [m; f; l; i; t] => inl (OptocadSyntaxError m f l i t PyNone PyNone)
  | [m; f; l; i; t; el] => inl (OptocadSyntaxError m f l i t el PyNone)
  | [m; f; l; i; t; el; ei] => inl (OptocadSyntaxError m f l i t el ei)
  | _ => inr (TypeError "OptocadSyntaxError.__init__(): wrong number of positional arguments")
  end.

(** A located syntax error with the given message. *)
Definition located_syntax_error (message : string) (e : exn) : Prop :=
  exists f l i t el ei,
    e = OptocadSyntaxError (PyStr message) f (PyInt l) (PyInt i) t el ei.

(** ** File objects *)

(** A text stream: [name] is [None] when the object has no [name] attribute. *)
Record fobj : Set := mkFobj {
  name : option string;
  contents : string
}.

(** [io.StringIO(string)]: an in-memory stream; the class defines no [name]. *)
Definition StringIO (s : string) : fobj := {| name := None; contents := s |}.

(** A file opened in text mode under the name [n]. *)
Definition text_file (n : string) (s : string) : fobj :=
  {| name := Some n; contents := s |}.

(** ** The tokenizer *)

(** How the generator [tokenize_file] ends after the tokens it yields. *)
Inductive stream_end : Set :=
| Done                 (* returned after ENDMARKER *)
| Raised (e : exn)
| Stuck.               (* a rule matched the empty string: the scan does not advance *)

Record OptocadTokenizer : Set := mkTokenizer {
  done : bool;
  script : list string;
  _filename : string;
  _nesting : list Token;
  _lineno : nat;
  _index : nat;
  _taboffset : nat
}.

Definition _TAB_SIZE : nat := 4.
Definition _IGNORE : string := String SPACE (String TAB EmptyString).

(** The attributes of an [OptocadTokenizer] instance: those [__init__] and
    [tokenize_file] assign, the class attributes and the methods. *)
Definition OptocadTokenizer_attributes : list string :=
  ["done"; "script"; "errors"; "_filename"; "_lineno"; "_index"; "_taboffset";
   "_matcher"; "_nesting"; "_TAB_SIZE"; "_TOKEN_RULES"; "_IGNORE";
   "_build_rules"; "_raise_error"; "_raise_lexing_error"; "tokenize";
   "tokenize_file"; "on_NEWLINE"; "on_LBRACKET"; "on_RBRACKET"; "on_LPAREN";
   "on_RPAREN"].

(** [self._tokenizer.<attr>]. *)
Definition tokenizer_getattr (attr : string) : exn + pyobj :=
  if existsb (String.eqb attr) OptocadTokenizer_attributes
  then inr (PyAttr "OptocadTokenizer" attr)
  else inl (AttributeError "OptocadTokenizer" attr).

Definition set_position (index taboffset : nat) (t : OptocadTokenizer) :=
  {| done := done t; script := script t; _filename := _filename t;
     _nesting := _nesting t; _lineno := _lineno t; _index := index;
     _taboffset := taboffset |}.

Definition set_lineno (l : nat) (t : OptocadTokenizer) :=
  {| done := done t; script := script t; _filename := _filename t;
     _nesting := _nesting t; _lineno := l; _index := _index t;
     _taboffset := _taboffset t |}.

Definition set_nesting (n : list Token) (t : OptocadTokenizer) :=
  {| done := done t; script := script t; _filename := _filename t;
     _nesting := n; _lineno := _lineno t; _index := _index t;
     _taboffset := _taboffset t |}.

Definition add_line (line : string) (t : OptocadTokenizer) :=
  {| done := done t; script := (script t ++ [line])%list; _filename := _filename t;
     _nesting := _nesting t; _lineno := _lineno t; _index := _index t;
     _taboffset := _taboffset t |}.

(** [list.pop()]: the last item and the items before it. *)
Definition pop {A : Type} (l : list A) : option (A * list A) :=
  match rev l with
  | [] => None
  | x :: before => Some (x, rev before)
  end.

(** [_raise_error(error_msg, token)]. *)
Definition _raise_error (t : OptocadTokenizer) (error_msg : string) (token : Token) : exn :=
  match OptocadSyntaxError_new
          [PyStr error_msg; PyStr (_filename t); PyInt (lineno token);
           PyInt (start_index token); py_of_value (value token);
           PyInt (lineno token); PyInt (stop_index token)] with
  | inl e => e
  | inr e => e
  end.

Definition value_text (token : Token) : string :=
  match value token with Some s => s | None => EmptyString end.

Definition hex_digit (n : nat) : ascii :=
  ascii_of_nat (if Nat.ltb n 10 then 48 + n else 87 + n).

(** [repr(token.value[0])]: the character between single quotes, with the
    escapes of Python for the backslash and the control characters, and
    between double quotes when it is the single quote. *)
Definition repr_char (s : string) : string :=
  match s with
  | EmptyString => "''"
  | String c _ =>
      let n := nat_of_ascii c in
      if Ascii.eqb c "'"%char then String "034"%char (String c (String "034"%char EmptyString))
      else if Ascii.eqb c "\"%char then "'\\'"
      else if Ascii.eqb c LF then "'\n'"
      else if Ascii.eqb c CR then "'\r'"
      else if Ascii.eqb c TAB then "'\t'"
      else if Nat.ltb n 32 || Nat.eqb n 127
           then "'\x" ++ String (hex_digit (n / 16)) (String (hex_digit (n mod 16)) "'")
      else "'" ++ String c "'"
  end.

Definition _raise_lexing_error (t : OptocadTokenizer) (token : Token) : exn :=
  _raise_error t ("illegal character " ++ repr_char (value_text token)) token.

Definition on_NEWLINE (token : Token) (t : OptocadTokenizer) : exn + OptocadTokenizer :=
  inr (set_lineno (_lineno t + String.length (value_text token)) t).

Definition on_LBRACKET (token : Token) (t : OptocadTokenizer) : exn + OptocadTokenizer :=
  inr (set_nesting ((_nesting t ++ [token])%list) t).

Definition on_LPAREN (token : Token) (t : OptocadTokenizer) : exn + OptocadTokenizer :=
  inr (set_nesting ((_nesting t ++ [token])%list) t).

(** [on_RBRACKET] and [on_RPAREN]: [pop] raises [IndexError] on the empty
    stack and the [assert] raises on another opener; both are caught and
    replaced by the located error. *)
Definition on_closer (opener closer : string) (token : Token) (t : OptocadTokenizer)
  : exn + OptocadTokenizer :=
  match pop (_nesting t) with
  | None => inl (_raise_error t ("extraneous '" ++ closer ++ "'") token)
  | Some (top, rest) =>
      if match value top with Some v => String.eqb v opener | None => false end
      then inr (set_nesting rest t)
      else inl (_raise_error (set_nesting rest t) ("extraneous '" ++ closer ++ "'") token)
  end.

Definition on_RBRACKET := on_closer "[" "]".
Definition on_RPAREN := on_closer "(" ")".

(** [getattr(self, f"on_{token_type}", False)] and the call of what it finds. *)
Definition token_callback (r : rule) (token : Token) (t : OptocadTokenizer)
  : exn + OptocadTokenizer :=
  match r with
  | NEWLINE => on_NEWLINE token t
  | LBRACKET => on_LBRACKET token t
  | RBRACKET => on_RBRACKET token t
  | LPAREN => on_LPAREN token t
  | RPAREN => on_RPAREN token t
  | _ => inr t
  end.

(** The [for] loop over the openers left on the stack: the [raise] of the
    first pass leaves the loop and the generator. *)
Definition raise_unclosed (t : OptocadTokenizer) : option exn :=
  match _nesting t with
  | [] => None
  | token :: _ => Some (_raise_error t ("unclosed '" ++ value_text token ++ "'") token)
  end.

(** [previous_line[-1] not in "\r\n"], for the empty line too. *)
Definition lacks_terminator (previous_line : string) : bool :=
  match last_char previous_line with
  | None => true
  | Some c => negb (Ascii.eqb c CR || Ascii.eqb c LF)
  end.

Section Tokenizer.

(** [self._matcher.match(line, index)]: the compiled alternation of
    [_TOKEN_RULES], whose patterns are in [tokens.py]; the result is
    [matches.lastgroup] and [matches.end()]. *)
Variable matcher : string -> nat -> option (rule * nat).

(** The inner [while self._index < linelength] loop on one line: the tokens
    it yields, the way it ends when it does not reach the end of the line,
    and the tokenizer afterwards. *)
Fixpoint scan_line (fuel : nat) (line : string) (t : OptocadTokenizer)
  : list Token * option stream_end * OptocadTokenizer :=
  if Nat.ltb (_index t) (String.length line) then
    match fuel with
    | 0 => ([], Some Stuck, t)
    | S fuel' =>
        match String.get (_index t) line with
        | None => ([], Some Stuck, t)
        | Some c =>
            if char_in c _IGNORE
            then scan_line fuel' line (set_position (_index t + 1) (_taboffset t) t)
            else
              match matcher line (_index t) with
              | Some (token_type, matches_end) =>
                  let value := substring (_index t) (matches_end - _index t) line in
                  let start_index := _index t + _taboffset t + 1 in
                  let taboffset := _taboffset t + (_TAB_SIZE - 1) * count TAB value in
                  let stop_index := matches_end + taboffset + 1 in
                  let token := mkToken (_lineno t) start_index stop_index token_type (Some value) in
                  match token_callback token_type token (set_position (_index t) taboffset t) with
                  | inl e => ([], Some (Raised e), t)
                  | inr t' =>
                      if Nat.leb matches_end (_index t)
                      then ([token], Some Stuck, t')
                      else
                        let '(tokens, e, t'') :=
                          scan_line fuel' line (set_position matches_end taboffset t') in
                        (token :: tokens, e, t'')
                  end
              | None =>
                  let token := mkToken (_lineno t) (_index t + 1) (String.length line + 1) ERROR
                                       (Some (substring (_index t) (String.length line - _index t) line)) in
                  ([], Some (Raised (_raise_lexing_error t token)), t)
              end
        end
    end
  else ([], None, t).

(** What follows the outer loop: the unclosed openers, the implicit NEWLINE
    and the ENDMARKER. *)
Definition finish (previous_line : string) (t : OptocadTokenizer) : list Token * stream_end :=
  match raise_unclosed t with
  | Some e => ([], Raised e)
  | None =>
      if lacks_terminator previous_line
      then ([mkToken (_lineno t) (_index t + 1) (_index t + 1) NEWLINE None;
             mkToken (_lineno t + 1) 1 1 ENDMARKER None], Done)
      else ([mkToken (_lineno t) 1 1 ENDMARKER None], Done)
  end.

(** The outer [while True] loop; [line] is the line read last, which the top
    of the loop copies into [previous_line] before it reads the next one. *)
Fixpoint read_loop (lines : list string) (line : string) (t : OptocadTokenizer)
  : list Token * stream_end :=
  let previous_line := line in
  match lines with
  | [] => finish previous_line t
  | line :: rest =>
      let '(tokens, e, t') :=
        scan_line (String.length line) line (set_position 0 0 (add_line line t)) in
      match e with
      | Some e => (tokens, e)
      | None => let '(tokens', e') := read_loop rest line t' in ((tokens ++ tokens')%list, e')
      end
  end.

(** [tokenize_file(fobj)]: everything the generator yields, and how it ends. *)
Definition tokenize_file (f : fobj) : list Token * stream_end :=
  match name f with
  | None => ([], Raised (AttributeError "StringIO" "name"))
  | Some filename =>
      read_loop (readlines (contents f)) EmptyString
        {| done := false; script := []; _filename := filename; _nesting := [];
           _lineno := 1; _index := 0; _taboffset := 0 |}
  end.

(** [tokenize(string)]. *)
Definition tokenize (s : string) : list Token * stream_end :=
  tokenize_file (StringIO s).

End Tokenizer.

(** ** Containers *)

(** What a parameter of a command holds: the text of a NUMBER token or an
    action (both are Python strings), or an expression node. *)
Inductive Value : Set :=
| VStr (s : string)
| VUnary (operator : option string) (argument : Value)
| VBinary (operator : option string) (lhs rhs : Value).

(** A Python [dict] in insertion order; a key is the [value] of a NAME token. *)
Definition dict : Set := list (option string * Value).

Definition key_eqb (a b : option string) : bool :=
  match a, b with
  | Some x, Some y => String.eqb x y
  | None, None => true
  | _, _ => false
  end.

Fixpoint dict_get (k : option string) (d : dict) : option Value :=
  match d with
  | [] => None
  | (k', v) :: d' => if key_eqb k k' then Some v else dict_get k d'
  end.

(** [d[k] = v]: a key that is present keeps its place and takes the new
    value, a new key goes to the end. *)
Fixpoint dict_set (k : option string) (v : Value) (d : dict) : dict :=
  match d with
  | [] => [(k, v)]
  | (k', v') :: d' => if key_eqb k k' then (k', v) :: d' else (k', v') :: dict_set k v d'
  end.

(** The dict display [{**d1, **d2}]. *)
Definition dict_merge (d1 d2 : dict) : dict :=
  fold_left (fun d kv => dict_set (fst kv) (snd kv) d) d2
            (fold_left (fun d kv => dict_set (fst kv) (snd kv) d) d1 []).

Record OptocadSecondarySurfaceCommand : Set := mkSecondary {
  s_args : list Value;
  s_kwargs : dict
}.

Record OptocadCommand : Set := mkCommand {
  directive : option string;
  args : list Value;
  kwargs : dict;
  secondary_surfaces : list OptocadSecondarySurfaceCommand
}.

(** [OptocadScript]: a list of commands. *)
Definition OptocadScript : Set := list OptocadCommand.

(** ** The parser state *)

Module Prod.
(** The names [expect_production] is called with. *)
Inductive name : Set :=
| start | script_line | command | command_params | command_value_list
| command_key_value_list | positional_value | value | key_value | action
| expr | expr1 | expr2 | expr3 | expr4 | invalid_expr4.

Definition eqb (a b : name) : bool :=
  match a, b with
  | start, start | script_line, script_line | command, command
  | command_params, command_params | command_value_list, command_value_list
  | command_key_value_list, command_key_value_list
  | positional_value, positional_value | value, value | key_value, key_value
  | action, action | expr, expr | expr1, expr1 | expr2, expr2 | expr3, expr3
  | expr4, expr4 | invalid_expr4, invalid_expr4 => true
  | _, _ => false
  end.
End Prod.

(** What a production or [expect_token] returns when it is not [None].
    An [OptocadCommand] is a mutable object ([secondary_surfaces] grows after
    the command is built), so the result is a reference into the store of
    commands of the parser. *)
Inductive result : Set :=
| RToken (t : Token)
| REMPTY
| RValue (v : Value)
| RList (l : list Value)
| RDict (d : dict)
| RParams (args : list Value) (kwargs : dict)
| RCommand (ref : nat)
| RSecondary (c : OptocadSecondarySurfaceCommand)
| RScript
| RError (e : exn).

(** The function and the arguments of a memoized call. *)
Inductive memo_key : Set :=
| KToken (arg : token_type)
| KProd (p : Prod.name).

Definition memo_key_eqb (a b : memo_key) : bool :=
  match a, b with
  | KToken x, KToken y => token_type_eqb x y
  | KProd p, KProd q => Prod.eqb p q
  | _, _ => false
  end.

Definition memo : Set := (nat * memo_key * (option result * nat))%type.

Record OptocadParser : Set := mkParser {
  tokens : list Token;
  pos : nat;
  memos : list memo;
  commands : list OptocadCommand;              (* the store of OptocadCommand objects *)
  optocad_script : list nat;                   (* references into the store *)
  parser_filename : string;
  _token_stream : list Token * stream_end      (* what the generator has yet to yield *)
}.

Definition set_pos (p : nat) (s : OptocadParser) : OptocadParser :=
  {| tokens := tokens s; pos := p; memos := memos s; commands := commands s;
     optocad_script := optocad_script s; parser_filename := parser_filename s;
     _token_stream := _token_stream s |}.

Definition set_memos (m : list memo) (s : OptocadParser) : OptocadParser :=
  {| tokens := tokens s; pos := pos s; memos := m; commands := commands s;
     optocad_script := optocad_script s; parser_filename := parser_filename s;
     _token_stream := _token_stream s |}.

Definition set_tokens (ts : list Token) (stream : list Token * stream_end)
           (s : OptocadParser) : OptocadParser :=
  {| tokens := ts; pos := pos s; memos := memos s; commands := commands s;
     optocad_script := optocad_script s; parser_filename := parser_filename s;
     _token_stream := stream |}.

Definition set_script (cs : list OptocadCommand) (sc : list nat)
           (s : OptocadParser) : OptocadParser :=
  {| tokens := tokens s; pos := pos s; memos := memos s; commands := cs;
     optocad_script := sc; parser_filename := parser_filename s;
     _token_stream := _token_stream s |}.

(** ** The monad of the parser: state, exceptions, and the end of the fuel *)

(** What a call does: it returns, it raises, or the fuel of the recursion
    runs out before it ends ([Diverge]). In Python the interpreter bounds the
    depth of the calls and raises [RecursionError] past its limit: that
    exception, like a loop that does not end, is the outcome [Diverge] here
    and never a [Raise]. *)
Inductive outcome (A : Type) : Type :=
| Ok (a : A)
| Raise (e : exn)
| Diverge.

Arguments Ok {A} a.
Arguments Raise {A} e.
Arguments Diverge {A}.

Definition M (A : Type) : Type := OptocadParser -> outcome A * OptocadParser.

Definition ret {A} (a : A) : M A := fun s => (Ok a, s).
Definition raise {A} (e : exn) : M A := fun s => (Raise e, s).
Definition diverge {A} : M A := fun s => (Diverge, s).

Definition bind {A B} (m : M A) (k : A -> M B) : M B :=
  fun s =>
    match m s with
    | (Ok a, s') => k a s'
    | (Raise e, s') => (Raise e, s')
    | (Diverge, s') => (Diverge, s')
    end.

Notation "x <- m ;; k" := (bind m (fun x => k))
  (at level 61, m at next level, right associativity).
Notation "m ;;; k" := (bind m (fun _ => k))
  (at level 61, right associativity).

(** One condition of an [if (True and ... and ...)] chain: when it is [None]
    the chain is false and control falls to the [self.reset(pos)] after it.
    A chain yields [Some r] when its body returns [r]. *)
Notation "x <-? m ;; k" :=
  (bind m (fun o => match o with Some x => k | None => ret None end))
  (at level 61, m at next level, right associativity).

(** An alternative and what follows it in the body of the production. *)
Definition orelse (chain : M (option (option result))) (next : M (option result))
  : M (option result) :=
  r <- chain ;; match r with Some v => ret v | None => next end.

Definition returns (r : option result) : M (option (option result)) := ret (Some r).
Definition falls_through : M (option (option result)) := ret None.

(** A value of a type the code does not expect; no production builds one. *)
Definition type_error {A} : M A := raise (TypeError "unexpected type").

(** ** The primitives of the parser *)

Definition mark : M nat := fun s => (Ok (pos s), s).
Definition reset (p : nat) : M unit := fun s => (Ok tt, set_pos p s).

(** [peek_token]: [next(self._token_stream)] resumes the generator when the
    buffer is exhausted. *)
Definition peek_token : M Token :=
  fun s =>
    let fetch : outcome unit * OptocadParser :=
      if Nat.eqb (pos s) (List.length (tokens s)) then
        match _token_stream s with
        | (t :: rest, e) => (Ok tt, set_tokens (tokens s ++ [t])%list (rest, e) s)
        | ([], Done) => (Raise StopIteration, s)
        | ([], Raised e) => (Raise e, set_tokens (tokens s) ([], Done) s)
        | ([], Stuck) => (Diverge, s)
        end
      else (Ok tt, s) in
    match fetch with
    | (Ok _, s') =>
        match nth_error (tokens s') (pos s') with
        | Some t => (Ok t, s')
        | None => (Raise IndexError, s')
        end
    | (Raise e, s') => (Raise e, s')
    | (Diverge, s') => (Diverge, s')
    end.

Definition get_token : M Token :=
  token <- peek_token ;;
  fun s => (Ok token, set_pos (pos s + 1) s).

Definition positive_lookahead (token_type : token_type) : M bool :=
  pos <- mark ;;
  token <- peek_token ;;
  reset pos ;;;
  ret (token_type_eqb (type token) token_type).

Definition negative_lookahead (token_type : token_type) : M bool :=
  b <- positive_lookahead token_type ;; ret (negb b).

(** *** The memoization engine *)

Fixpoint memo_get (p : nat) (key : memo_key) (m : list memo) : option (option result * nat) :=
  match m with
  | [] => None
  | (p', key', entry) :: m' =>
      if Nat.eqb p p' && memo_key_eqb key key' then Some entry else memo_get p key m'
  end.

Definition memo_put (p : nat) (key : memo_key) (entry : option result * nat) : M unit :=
  fun s => (Ok tt, set_memos ((p, key, entry) :: memos s) s).

(** Modelled from the spec: [memoize] of the module [memoize.py], which is not
    among the sources (spec 4.2, plain memoization): the first call at a key
    and a position computes and caches the result and the position after it,
    a later one replays both. An exception leaves the cache as it is. *)
Definition memoize (key : memo_key) (func : M (option result)) : M (option result) :=
  pos <- mark ;;
  fun s =>
    match memo_get pos key (memos s) with
    | Some (res, endpos) => (reset endpos ;;; ret res) s
    | None =>
        (res <- func ;;
         endpos <- mark ;;
         memo_put pos key (res, endpos) ;;;
         ret res) s
    end.

(** Modelled from the spec: the loop of [memoize_left_rec] (spec 4.2, seed
    growing): the body runs again from the start position as long as it
    succeeds and ends further than the best attempt so far, which is cached
    after each round. *)
Fixpoint grow_seed (fuel : nat) (key : memo_key) (func : M (option result))
         (pos : nat) (lastres : option result) (lastpos : nat) : M (option result) :=
  match fuel with
  | 0 => diverge
  | S fuel' =>
      reset pos ;;;
      res <- func ;;
      endpos <- mark ;;
      match res with
      | None => reset lastpos ;;; ret lastres
      | Some _ =>
          if Nat.leb endpos lastpos then reset lastpos ;;; ret lastres
          else memo_put pos key (res, endpos) ;;;
               grow_seed fuel' key func pos res endpos
      end
  end.

(** Modelled from the spec: [memoize_left_rec] of the module [memoize.py]
    (spec 4.2): the first entry at a key and a position caches a failure, which
    a nested call at the same key and position gets back at once, and then
    grows the seed. *)
Definition memoize_left_rec (fuel : nat) (key : memo_key) (func : M (option result))
  : M (option result) :=
  pos <- mark ;;
  fun s =>
    match memo_get pos key (memos s) with
    | Some (res, endpos) => (reset endpos ;;; ret res) s
    | None =>
        (memo_put pos key (None, pos) ;;;
         grow_seed fuel key func pos None pos) s
    end.

(** [expect_token(arg)], memoized on its argument. *)
Definition expect_token (arg : token_type) : M (option result) :=
  memoize (KToken arg)
    (token <- peek_token ;;
     if token_type_eqb (type token) arg
     then result <- get_token ;; ret (Some (RToken result))
     else ret None).

Definition maybe_token (token_type : token_type) : M (option result) :=
  pos <- mark ;;
  orelse (TOKEN <-? expect_token token_type ;; returns (Some TOKEN))
         (reset pos ;;; ret (Some REMPTY)).

Definition maybe_trailing_comma : M (option result) :=
  pos <- mark ;;
  orelse (COMMA_ <-? expect_token COMMA ;;
          nl <- positive_lookahead NEWLINE ;;
          b <- (if nl then ret true else positive_lookahead COMMENT) ;;
          if b then returns (Some COMMA_) else falls_through)
         (reset pos ;;; ret (Some REMPTY)).

(** The [while] loop of [loop_token] and [loop_production]. *)
Fixpoint loop (fuel : nat) (step : M (option result)) (nodes : list result)
  : M (list result) :=
  match fuel with
  | 0 => diverge
  | S fuel' =>
      node <- step ;;
      match node with
      | Some node => loop fuel' step (nodes ++ [node])%list
      | None => ret nodes
      end
  end.

Definition loop_token (fuel : nat) (token : token_type) (nonempty : nat)
  : M (option (list result)) :=
  mark_ <- mark ;;
  nodes <- loop fuel (expect_token token) [] ;;
  if Nat.leb nonempty (List.length nodes) then ret (Some nodes)
  else reset mark_ ;;; ret None.

(** ** The productions *)

Definition is_digit (c : ascii) : bool :=
  let n := nat_of_ascii c in Nat.leb 48 n && Nat.leb n 57.

(** The blanks that [int] strips. *)
Definition is_space (c : ascii) : bool :=
  let n := nat_of_ascii c in (Nat.leb 9 n && Nat.leb n 13) || Nat.eqb n 32.

Fixpoint all_spaces (s : string) : bool :=
  match s with
  | EmptyString => true
  | String c s' => is_space c && all_spaces s'
  end.

Fixpoint digits_ok (s : string) (after_digit : bool) : bool :=
  match s with
  | EmptyString => after_digit
  | String c s' =>
      if is_digit c then digits_ok s' true
      else if Ascii.eqb c "_"%char then after_digit && digits_ok s' false
      else if is_space c then after_digit && all_spaces s'
      else false
  end.

(** [int(text)] succeeds: optional blanks and sign around decimal digits,
    which single underscores may separate. *)
Fixpoint int_ok (s : string) : bool :=
  match s with
  | EmptyString => false
  | String c s' =>
      if is_space c then int_ok s'
      else if Ascii.eqb c "+"%char || Ascii.eqb c "-"%char then digits_ok s' false
      else digits_ok s false
  end.

(** [isinstance(token.value, int)]: the value of a token is the matched text
    or [None]. *)
Definition isinstance_int (v : option string) : bool := false.

(** [OptocadSyntaxError(message, (self._filename, self._tokenizer.lineno,
    self._tokenizer.index, text))] and its [raise]: the arguments are
    evaluated from left to right, then the class is called. *)
Definition raise_structural_error {A} (message : string) (text : pyobj) : M A :=
  fun s =>
    match tokenizer_getattr "lineno" with
    | inl e => (Raise e, s)
    | inr lineno =>
        match tokenizer_getattr "index" with
        | inl e => (Raise e, s)
        | inr index =>
            match OptocadSyntaxError_new
                    [PyStr message;
                     PyTuple4 (PyStr (parser_filename s)) lineno index text] with
            | inl e => (Raise e, s)
            | inr e => (Raise e, s)
            end
        end
    end.

(** [OptocadSyntaxError(message, self.script, token)], the value that
    [invalid_expr4] means to return. *)
Definition number_error (message : string) (token : Token) : M (option (option result)) :=
  match tokenizer_getattr "script" with
  | inl e => raise e
  | inr script =>
      match OptocadSyntaxError_new [PyStr message; script; PyTok token] with
      | inl e => returns (Some (RError e))
      | inr e => raise e
      end
  end.

(** A new [OptocadCommand] object in the store. *)
Definition new_command (c : OptocadCommand) : M nat :=
  fun s => (Ok (List.length (commands s)),
            set_script (commands s ++ [c])%list (optocad_script s) s).

(** [self.optocad_script.append(command)]. *)
Definition script_append (ref : nat) : M unit :=
  fun s => (Ok tt, set_script (commands s) (optocad_script s ++ [ref])%list s).

Fixpoint update_nth {A} (n : nat) (f : A -> A) (l : list A) : list A :=
  match l, n with
  | [], _ => []
  | x :: l', 0 => f x :: l'
  | x :: l', S n' => x :: update_nth n' f l'
  end.

Definition add_secondary (c : OptocadSecondarySurfaceCommand) (cmd : OptocadCommand) :=
  {| directive := directive cmd; args := args cmd; kwargs := kwargs cmd;
     secondary_surfaces := (secondary_surfaces cmd ++ [c])%list |}.

(** [self.optocad_script[-1].secondary_surfaces.append(command)], with the
    handler of the [IndexError] of the empty script. *)
Definition append_to_previous (c : OptocadSecondarySurfaceCommand) : M unit :=
  fun s =>
    match pop (optocad_script s) with
    | Some (ref, _) =>
        (Ok tt, set_script (update_nth ref (add_secondary c) (commands s)) (optocad_script s) s)
    | None =>
        raise_structural_error "secondary surface missing primary surface" PyNone s
    end.

Section Productions.

(** The fuel of the [while] loops and [self.expect_production]. *)
Variable fuel : nat.
Variable expect_production : Prod.name -> M (option result).

Definition loop_production (production : Prod.name) (nonempty : nat)
  : M (option (list result)) :=
  mark_ <- mark ;;
  nodes <- loop fuel (expect_production production) [] ;;
  if Nat.leb nonempty (List.length nodes) then ret (Some nodes)
  else reset mark_ ;;; ret None.

Definition start : M (option result) :=
  pos <- mark ;;
  orelse (_ <-? loop_production Prod.script_line 0 ;;
          _ <-? expect_token ENDMARKER ;;
          returns (Some RScript))
         (reset pos ;;; ret None).

Definition script_line : M (option result) :=
  pos <- mark ;;
  (* script_line -> command COMMENT? NEWLINE *)
  orelse (command <-? expect_production Prod.command ;;
          _ <-? maybe_token COMMENT ;;
          _ <-? expect_token NEWLINE ;;
          match command with
          | RSecondary c => append_to_previous c ;;; returns (Some command)
          | RCommand ref => script_append ref ;;; returns (Some command)
          | _ => type_error
          end)
  (reset pos ;;;
  (* script_line -> COMMENT? NEWLINE *)
  orelse (_ <-? maybe_token COMMENT ;;
          _ <-? expect_token NEWLINE ;;
          returns (Some REMPTY))
  (reset pos ;;; ret None)).

Definition command : M (option result) :=
  pos <- mark ;;
  (* command -> NAME command_params *)
  orelse (COMMAND <-? expect_token NAME ;;
          command_params <-? expect_production Prod.command_params ;;
          match COMMAND, command_params with
          | RToken COMMAND, RParams args kwargs =>
              ref <- new_command (mkCommand (value COMMAND) args kwargs []) ;;
              returns (Some (RCommand ref))
          | _, _ => type_error
          end)
  (reset pos ;;;
  (* command -> PLUS command_params *)
  orelse (_ <-? expect_token PLUS ;;
          command_params <-? expect_production Prod.command_params ;;
          match command_params with
          | RParams args kwargs => returns (Some (RSecondary (mkSecondary args kwargs)))
          | _ => type_error
          end)
  (reset pos ;;; ret None)).

Definition command_params : M (option result) :=
  pos <- mark ;;
  (* command_params -> command_value_list ',' command_key_value_list ','? *)
  orelse (command_value_list <-? expect_production Prod.command_value_list ;;
          _ <-? expect_token COMMA ;;
          command_key_value_list <-? expect_production Prod.command_key_value_list ;;
          _ <-? maybe_trailing_comma ;;
          match command_value_list, command_key_value_list with
          | RList l, RDict d => returns (Some (RParams l d))
          | _, _ => type_error
          end)
  (reset pos ;;;
  (* command_params -> command_value_list ','? *)
  orelse (command_value_list <-? expect_production Prod.command_value_list ;;
          _ <-? maybe_trailing_comma ;;
          match command_value_list with
          | RList l => returns (Some (RParams l []))
          | _ => type_error
          end)
  (reset pos ;;;
  (* command_params -> command_key_value_list ','? *)
  orelse (command_key_value_list <-? expect_production Prod.command_key_value_list ;;
          _ <-? maybe_trailing_comma ;;
          match command_key_value_list with
          | RDict d => returns (Some (RParams [] d))
          | _ => type_error
          end)
  (reset pos ;;; ret None))).

Definition command_value_list : M (option result) :=
  pos <- mark ;;
  (* command_value_list -> positional_value ',' command_value_list *)
  orelse (positional_value <-? expect_production Prod.positional_value ;;
          _ <-? expect_token COMMA ;;
          command_value_list <-? expect_production Prod.command_value_list ;;
          match positional_value, command_value_list with
          | RValue v, RList l => returns (Some (RList (v :: l)))
          | _, _ => type_error
          end)
  (reset pos ;;;
  (* command_value_list -> positional_value *)
  orelse (positional_value <-? expect_production Prod.positional_value ;;
          match positional_value with
          | RValue v => returns (Some (RList [v]))
          | _ => type_error
          end)
  (reset pos ;;; ret None)).

Definition command_key_value_list : M (option result) :=
  pos <- mark ;;
  (* command_key_value_list -> command_key_value_list ',' command_key_value_list *)
  orelse (command_key_value_list1 <-? expect_production Prod.command_key_value_list ;;
          _ <-? loop_token fuel COMMA 1 ;;
          command_key_value_list2 <-? expect_production Prod.command_key_value_list ;;
          match command_key_value_list1, command_key_value_list2 with
          | RDict d1, RDict d2 => returns (Some (RDict (dict_merge d1 d2)))
          | _, _ => type_error
          end)
  (reset pos ;;;
  (* command_key_value_list -> key_value *)
  orelse (key_value <-? expect_production Prod.key_value ;;
          returns (Some key_value))
  (reset pos ;;; ret None)).

Definition positional_value : M (option result) :=
  pos <- mark ;;
  (* Don't match values followed by '=', which are kwarg keys. *)
  orelse (value <-? expect_production Prod.value ;;
          b <- negative_lookahead EQUALS ;;
          if b then returns (Some value) else falls_through)
  (reset pos ;;; ret None).

Definition value_ : M (option result) :=
  pos <- mark ;;
  (* value -> action *)
  orelse (action <-? expect_production Prod.action ;;
          returns (Some action))
  (reset pos ;;;
  (* value -> expr *)
  orelse (expr <-? expect_production Prod.expr ;;
          returns (Some expr))
  (reset pos ;;; ret None)).

Definition key_value : M (option result) :=
  pos <- mark ;;
  (* key_value -> NAME '=' value *)
  orelse (NAME_ <-? expect_token NAME ;;
          _ <-? expect_token EQUALS ;;
          value_ <-? expect_production Prod.value ;;
          match NAME_, value_ with
          | RToken NAME_, RValue v => returns (Some (RDict [(value NAME_, v)]))
          | _, _ => type_error
          end)
  (reset pos ;;;
  orelse (NAME_ <-? expect_token NAME ;;
          EQUALS_ <-? expect_token EQUALS ;;
          value_ <- expect_production Prod.value ;;
          match value_, EQUALS_ with
          | None, RToken EQUALS_ =>
              raise_structural_error "missing value" (py_of_value (value EQUALS_))
          | None, _ => type_error
          | Some _, _ => falls_through
          end)
  (reset pos ;;; ret None)).

Definition action : M (option result) :=
  pos <- mark ;;
  (* action -> action action *)
  orelse (action1 <-? expect_production Prod.action ;;
          action2 <-? expect_production Prod.action ;;
          match action1, action2 with
          | RValue (VStr a1), RValue (VStr a2) => returns (Some (RValue (VStr (a1 ++ a2))))
          | _, _ => type_error
          end)
  (reset pos ;;;
  (* action -> '{' action '}' NUMBER? *)
  orelse (_ <-? expect_token LBRACE ;;
          action <-? expect_production Prod.action ;;
          _ <-? expect_token RBRACE ;;
          NUMBER_ <-? maybe_token NUMBER ;;
          match NUMBER_, action with
          | REMPTY, RValue (VStr a) =>
              returns (Some (RValue (VStr ("{" ++ a ++ "}" ++ EmptyString))))
          | RToken NUMBER_, _ =>
              match value NUMBER_ with
              | Some text =>
                  if int_ok text
                  then raise (TypeError "can only concatenate str (not int) to str")
                  else (* ValueError: not an integer *) falls_through
              | None => raise (TypeError "int() argument must be a string or a number")
              end
          | _, _ => type_error
          end)
  (reset pos ;;;
  (* action -> '[' action ']' *)
  orelse (_ <-? expect_token LBRACKET ;;
          action <-? expect_production Prod.action ;;
          _ <-? expect_token RBRACKET ;;
          match action with
          | RValue (VStr a) => returns (Some (RValue (VStr ("[" ++ a ++ "]"))))
          | _ => type_error
          end)
  (reset pos ;;;
  (* action -> '(' action ')' *)
  orelse (_ <-? expect_token LPAREN ;;
          action <-? expect_production Prod.action ;;
          _ <-? expect_token RPAREN ;;
          match action with
          | RValue (VStr a) => returns (Some (RValue (VStr ("(" ++ a ++ ")"))))
          | _ => type_error
          end)
  (reset pos ;;;
  (* action -> ('c' | 'd' | 'h' | 'i' | 'n' | 'r' | 's' | 't' | 'v')+ *)
  orelse (NAME_ <-? expect_token NAME ;;
          match NAME_ with
          | RToken NAME_ =>
              match value NAME_ with
              | Some text =>
                  if chars_subset text "cdhinrstv"
                  then returns (Some (RValue (VStr text)))
                  else falls_through
              | None => raise (TypeError "'NoneType' object is not iterable")
              end
          | _ => type_error
          end)
  (reset pos ;;; ret None))))).

(** The [for operator in (...)] loop of [expr] and [expr1]: one alternative
    per operator, each followed by [self.reset(pos)]. *)
Fixpoint binary_alternatives (pos : nat) (lhs_production rhs_production : Prod.name)
         (operators : list rule) (next : M (option result)) : M (option result) :=
  match operators with
  | [] => next
  | operator :: operators' =>
      orelse (lhs <-? expect_production lhs_production ;;
              operator <-? expect_token operator ;;
              rhs <-? expect_production rhs_production ;;
              match operator, lhs, rhs with
              | RToken operator, RValue lhs, RValue rhs =>
                  returns (Some (RValue (VBinary (value operator) lhs rhs)))
              | _, _, _ => type_error
              end)
      (reset pos ;;;
       binary_alternatives pos lhs_production rhs_production operators' next)
  end.

Definition expr : M (option result) :=
  pos <- mark ;;
  (* expr -> expr ( '+' / '-' ) expr1 *)
  binary_alternatives pos Prod.expr Prod.expr1 [PLUS; MINUS]
  (* expr -> expr1 *)
  (orelse (expr1 <-? expect_production Prod.expr1 ;;
           returns (Some expr1))
  (reset pos ;;; ret None)).

Definition expr1 : M (option result) :=
  pos <- mark ;;
  (* expr1 -> expr1 ( '*' / '/' / '//' ) expr2 *)
  binary_alternatives pos Prod.expr1 Prod.expr2 [TIMES; DIVIDE; FLOORDIVIDE]
  (* expr1 -> expr2 *)
  (orelse (expr2 <-? expect_production Prod.expr2 ;;
           returns (Some expr2))
  (reset pos ;;; ret None)).

(** The [for unary_operator in (...)] loop of [expr2]. *)
Fixpoint unary_alternatives (pos : nat) (operators : list rule)
         (next : M (option result)) : M (option result) :=
  match operators with
  | [] => next
  | unary_operator :: operators' =>
      orelse (operator <-? expect_token unary_operator ;;
              expr2 <-? expect_production Prod.expr2 ;;
              match operator, expr2 with
              | RToken operator, RValue expr2 =>
                  returns (Some (RValue (VUnary (value operator) expr2)))
              | _, _ => type_error
              end)
      (reset pos ;;; unary_alternatives pos operators' next)
  end.

Definition expr2 : M (option result) :=
  pos <- mark ;;
  (* expr2 -> ( '+' / '-' ) expr2 *)
  unary_alternatives pos [PLUS; MINUS]
  (* expr2 -> expr3 *)
  (orelse (expr3 <-? expect_production Prod.expr3 ;;
           returns (Some expr3))
  (reset pos ;;; ret None)).

Definition expr3 : M (option result) :=
  pos <- mark ;;
  (* expr3 -> expr4 '**' expr2 *)
  orelse (expr4 <-? expect_production Prod.expr4 ;;
          power <-? expect_token POWER ;;
          expr2 <-? expect_production Prod.expr2 ;;
          match expr4, power, expr2 with
          | RValue expr4, RToken power, RValue expr2 =>
              returns (Some (RValue (VBinary (value power) expr4 expr2)))
          | _, _, _ => type_error
          end)
  (reset pos ;;;
  (* expr3 -> expr4 *)
  orelse (expr4 <-? expect_production Prod.expr4 ;;
          returns (Some expr4))
  (reset pos ;;; ret None)).

Definition expr4 : M (option result) :=
  pos <- mark ;;
  (* expr4 -> '(' expr ')' *)
  orelse (_ <-? expect_token LPAREN ;;
          expr <-? expect_production Prod.expr ;;
          _ <-? expect_token RPAREN ;;
          returns (Some expr))
  (reset pos ;;;
  (* expr4 -> NUMBER, not followed by another NUMBER *)
  orelse (TOKEN <-? expect_token NUMBER ;;
          b <- negative_lookahead NUMBER ;;
          if b then
            match TOKEN with
            | RToken TOKEN => returns (option_map (fun text => RValue (VStr text)) (value TOKEN))
            | _ => type_error
            end
          else falls_through)
  (reset pos ;;;
  orelse (error <-? expect_production Prod.invalid_expr4 ;;
          match error with
          | RError e => raise e
          | _ => raise (TypeError "exceptions must derive from BaseException")
          end)
  (reset pos ;;; ret None))).

Definition invalid_expr4 : M (option result) :=
  pos <- mark ;;
  (* two numbers tokenized in a row *)
  orelse (NUMBER1 <-? expect_token NUMBER ;;
          NUMBER2 <-? expect_token NUMBER ;;
          match NUMBER1, NUMBER2 with
          | RToken NUMBER1, RToken NUMBER2 =>
              if isinstance_int (value NUMBER1) && isinstance_int (value NUMBER2)
              then number_error "leading zeros in integers are not permitted" NUMBER1
              else number_error "invalid number syntax" NUMBER2
          | _, _ => type_error
          end)
  (reset pos ;;; ret None).

End Productions.

(** [expect_production(production)]: [getattr(self, production)()], through
    the decorator of the production. *)
Fixpoint expect_production (fuel : nat) (production : Prod.name) : M (option result) :=
  match fuel with
  | 0 => diverge
  | S fuel' =>
      let self := expect_production fuel' in
      match production with
      | Prod.start => start fuel' self
      | Prod.script_line => memoize (KProd production) (script_line self)
      | Prod.command => memoize (KProd production) (command self)
      | Prod.command_params => memoize (KProd production) (command_params self)
      | Prod.command_value_list => memoize (KProd production) (command_value_list self)
      | Prod.command_key_value_list =>
          memoize_left_rec fuel' (KProd production) (command_key_value_list fuel' self)
      | Prod.positional_value => memoize (KProd production) (positional_value self)
      | Prod.value => memoize (KProd production) (value_ self)
      | Prod.key_value => memoize (KProd production) (key_value self)
      | Prod.action => memoize_left_rec fuel' (KProd production) (action self)
      | Prod.expr => memoize_left_rec fuel' (KProd production) (expr self)
      | Prod.expr1 => memoize_left_rec fuel' (KProd production) (expr1 self)
      | Prod.expr2 => memoize (KProd production) (expr2 self)
      | Prod.expr3 => memoize (KProd production) (expr3 self)
      | Prod.expr4 => memoize (KProd production) (expr4 self)
      | Prod.invalid_expr4 => memoize (KProd production) invalid_expr4
      end
  end.

(** ** The entry points *)

(** The parser after the first lines of [parse_file] (``Reset parser
    state''), before [fobj.name] is read. *)
Definition reset_parser : OptocadParser :=
  {| tokens := []; pos := 0; memos := []; commands := []; optocad_script := [];
     parser_filename := EmptyString; _token_stream := ([], Done) |}.

(** The parser once [_filename] and [_token_stream] are assigned. *)
Definition ready_parser (filename : string) (stream : list Token * stream_end)
  : OptocadParser :=
  {| tokens := []; pos := 0; memos := []; commands := []; optocad_script := [];
     parser_filename := filename; _token_stream := stream |}.

(** The commands that the references of [self.optocad_script] stand for. *)
Definition script_value (s : OptocadParser) : OptocadScript :=
  flat_map (fun ref => match nth_error (commands s) ref with
                       | Some c => [c]
                       | None => []
                       end) (optocad_script s).

Definition _diagnose_error {A} : M A :=
  fun s =>
    (error_token <- match pop (tokens s) with
                    | None => peek_token
                    | Some (last, _) => ret last
                    end ;;
     raise match OptocadSyntaxError_new
                   [PyStr "syntax error"; PyStr (parser_filename s);
                    PyInt (lineno error_token); PyInt (start_index error_token);
                    py_of_value (value error_token);
                    PyInt (lineno error_token); PyInt (stop_index error_token)] with
           | inl e => e
           | inr e => e
           end) s.

(** The part of [parse_file] that follows the assignment of
    [self._token_stream]. *)
Definition parse_stream (fuel : nat) (filename : string)
           (stream : list Token * stream_end) : outcome OptocadScript * OptocadParser :=
  (script <- expect_production fuel Prod.start ;;
   match script with
   | Some _ => fun s => (Ok (script_value s), s)
   | None => _diagnose_error
   end) (ready_parser filename stream).

Section Parser.

Variable matcher : string -> nat -> option (rule * nat).

(** [parse_file(fobj)]: what it returns or raises, and the parser it leaves. *)
Definition parse_file (fuel : nat) (f : fobj) : outcome OptocadScript * OptocadParser :=
  match name f with
  | None => (Raise (AttributeError "StringIO" "name"), reset_parser)
  | Some filename => parse_stream fuel filename (tokenize_file matcher f)
  end.

(** [parse(string)]. *)
Definition parse (fuel : nat) (string : string) : outcome OptocadScript * OptocadParser :=
  parse_file fuel (StringIO string).

End Parser.

(** ** Token rules for the examples *)

Definition is_alpha (c : ascii) : bool :=
  let n := nat_of_ascii c in
  (Nat.leb 65 n && Nat.leb n 90) || (Nat.leb 97 n && Nat.leb n 122).

Definition is_name_start (c : ascii) : bool := is_alpha c || Ascii.eqb c "_"%char.

Definition is_name_char (c : ascii) : bool :=
  is_alpha c || is_digit c || Ascii.eqb c "_"%char || Ascii.eqb c "."%char.

(** The number of leading characters of [s] that satisfy [p]. *)
Fixpoint span (p : ascii -> bool) (s : string) : nat :=
  match s with
  | EmptyString => 0
  | String c s' => if p c then S (span p s') else 0
  end.

Fixpoint drop (n : nat) (s : string) : string :=
  match n, s with
  | 0, _ => s
  | S n', String _ s' => drop n' s'
  | S _, EmptyString => EmptyString
  end.

(** The length of the number at the head of [s], 0 when there is none:
    [inf], or an integer part without leading zeros and an optional
    fraction, or a fraction alone. *)
Definition number_length (s : string) : nat :=
  let fraction (r : string) : nat :=
    match r with
    | String "." r' => match span is_digit r' with 0 => 0 | n => S n end
    | _ => 0
    end in
  if String.prefix "inf" s then 3
  else match s with
       | String "0" r => 1 + fraction r
       | String c r =>
           if is_digit c then let n := 1 + span is_digit r in n + fraction (drop n s)
           else fraction s
       | EmptyString => 0
       end.

(** The length of the quoted string at the head of [s], 0 when there is none. *)
Definition string_length (s : string) : nat :=
  match s with
  | String q r =>
      if Ascii.eqb q "034"%char || Ascii.eqb q "'"%char then
        let n := span (fun c => negb (Ascii.eqb c q) && negb (Ascii.eqb c LF)) r in
        match drop n r with
        | String _ _ => n + 2
        | EmptyString => 0
        end
      else 0
  | EmptyString => 0
  end.

Definition literal (s : string) : option (rule * nat) :=
  if String.prefix "**" s then Some (POWER, 2)
  else if String.prefix "//" s then Some (FLOORDIVIDE, 2)
  else match s with
       | String "," _ => Some (COMMA, 1)
       | String "=" _ => Some (EQUALS, 1)
       | String "+" _ => Some (PLUS, 1)
       | String "-" _ => Some (MINUS, 1)
       | String "*" _ => Some (TIMES, 1)
       | String "/" _ => Some (DIVIDE, 1)
       | String "(" _ => Some (LPAREN, 1)
       | String ")" _ => Some (RPAREN, 1)
       | String "[" _ => Some (LBRACKET, 1)
       | String "]" _ => Some (RBRACKET, 1)
       | String "{" _ => Some (LBRACE, 1)
       | String "}" _ => Some (RBRACE, 1)
       | _ => None
       end.

(** Modelled from the spec: the patterns of [tokens.py], which is not among
    the sources (spec 3 and 4.1): NEWLINE, COMMENT, NUMBER, STRING and NAME
    in this order, NUMBER before NAME so that it takes [inf], then the
    literal punctuation. The rule that matches at the head of [s], and the
    length of the match. *)
Definition token_rules (s : string) : option (rule * nat) :=
  match s with
  | EmptyString => None
  | String c r =>
      if Ascii.eqb c LF then Some (NEWLINE, 1 + span (Ascii.eqb LF) r)
      else if Ascii.eqb c "#"%char then Some (COMMENT, 1 + span (fun c => negb (Ascii.eqb c LF)) r)
      else match number_length s with
           | S n => Some (NUMBER, S n)
           | 0 =>
               match string_length s with
               | S n => Some (STRING, S n)
               | 0 =>
                   if is_name_start c then Some (NAME, 1 + span is_name_char r)
                   else literal s
               end
           end
  end.

(** [re.compile(rules).match(line, index)] for these rules. *)
Definition optocad_matcher (line : string) (index : nat) : option (rule * nat) :=
  match token_rules (drop index line) with
  | Some (r, n) => Some (r, index + n)
  | None => None
  end.

(** ** Tables of matches

    The patterns of [tokens.py] enter the tokenizer through [matcher] alone;
    a property of the parser on a given text needs only the matches of the
    rules on the lines of that text. *)

(** For each line, the matches [(index, rule, end)] of the rules on it. *)
Definition lexicon : Set := list (string * list (nat * rule * nat)).

Fixpoint span_at (index : nat) (spans : list (nat * rule * nat)) : option (rule * nat) :=
  match spans with
  | [] => None
  | (i, r, e) :: spans' => if Nat.eqb index i then Some (r, e) else span_at index spans'
  end.

(** The matcher that knows the matches of the table and no other. *)
Fixpoint table_matcher (table : lexicon) (line : string) (index : nat) : option (rule * nat) :=
  match table with
  | [] => None
  | (l, spans) :: table' =>
      if String.eqb line l then span_at index spans else table_matcher table' line index
  end.

(** The rules of [matcher] match as the table says. *)
Definition lexes (matcher : string -> nat -> option (rule * nat)) (table : lexicon) : Prop :=
  forall line index m, table_matcher table line index = Some m -> matcher line index = Some m.

(** The error of [_raise_lexing_error]. *)
Definition is_lexing_error (e : stream_end) : bool :=
  match e with
  | Raised (OptocadSyntaxError (PyStr message) _ _ _ _ _ _) =>
      String.prefix "illegal character" message
  | _ => false
  end.

Definition match_eqb (a b : option (rule * nat)) : bool :=
  match a, b with
  | Some (r, e), Some (r', e') => rule_eqb r r' && Nat.eqb e e'
  | None, None => true
  | _, _ => false
  end.

(** The decidable form of [lexes]. *)
Definition check_table (matcher : string -> nat -> option (rule * nat)) (table : lexicon) : bool :=
  forallb (fun '(line, spans) =>
             forallb (fun '(i, r, e) => match_eqb (matcher line i) (Some (r, e))) spans)
          table.

(** ** The statements about the end of the token stream *)

(** A token built from a match of a rule. *)
Definition matched_token (t : Token) : Prop :=
  exists r text, type t = Rule r /\ value t = Some text.

(** The tokens of [text] are the matched tokens, then the implicit NEWLINE
    exactly when the text does not end in a line terminator, then the
    ENDMARKER. *)
Definition ends_properly (text : string) (tokens : list Token) : Prop :=
  exists body implicit l,
    tokens = (body ++ implicit ++ [mkToken l 1 1 ENDMARKER None])%list /\
    Forall matched_token body /\
    ((lacks_terminator text = true /\
      exists l' i, implicit = [mkToken l' i i NEWLINE None]) \/
     (lacks_terminator text = false /\ implicit = [])).

(** ** The scripts of the scenarios and the matches of the rules on them *)

Definition crv_table : lexicon :=
  [("m1 crv" ++ nl, [(0, NAME, 2); (3, NAME, 6); (6, NEWLINE, 7)]);
   ("m1 crx" ++ nl, [(0, NAME, 2); (3, NAME, 6); (6, NEWLINE, 7)])].

Definition secondary_table : lexicon :=
  [("m1 1" ++ nl, [(0, NAME, 2); (3, NUMBER, 4); (4, NEWLINE, 5)]);
   ("+ 2" ++ nl, [(0, PLUS, 1); (2, NUMBER, 3); (3, NEWLINE, 4)])].

Definition orphan_table : lexicon :=
  [("+ 1" ++ nl, [(0, PLUS, 1); (2, NUMBER, 3); (3, NEWLINE, 4)])].

Definition missing_value_table : lexicon :=
  [("m1 x=" ++ nl, [(0, NAME, 2); (3, NAME, 4); (4, EQUALS, 5); (5, NEWLINE, 6)])].

Definition kwargs_table : lexicon :=
  [("m1 x=1, y=2" ++ nl,
    [(0, NAME, 2); (3, NAME, 4); (4, EQUALS, 5); (5, NUMBER, 6); (6, COMMA, 7);
     (8, NAME, 9); (9, EQUALS, 10); (10, NUMBER, 11); (11, NEWLINE, 12)]);
   ("m1 x=1, x=2" ++ nl,
    [(0, NAME, 2); (3, NAME, 4); (4, EQUALS, 5); (5, NUMBER, 6); (6, COMMA, 7);
     (8, NAME, 9); (9, EQUALS, 10); (10, NUMBER, 11); (11, NEWLINE, 12)])].

Definition leading_zero_table : lexicon :=
  [("m1 01" ++ nl, [(0, NAME, 2); (3, NUMBER, 4); (4, NUMBER, 5); (5, NEWLINE, 6)])].

Definition unclosed_table : lexicon :=
  [("((", [(0, LPAREN, 1); (1, LPAREN, 2)])].

Definition tab_table : lexicon :=
  [(String TAB "m1" ++ nl, [(1, NAME, 3); (3, NEWLINE, 4)])].

(** * Notions for the further properties *)

(** An [OptocadSyntaxError] about the file [filename] with the arguments that
    [_raise_error] and [_diagnose_error] give it: a message, the name of the
    file, a line, a start column, the text of a token ([None] for a token
    without text), the same line again and a stop column. *)
Definition syntax_error_of (filename : string) (e : exn) : Prop :=
  exists message l i text i',
    e = OptocadSyntaxError (PyStr message) (PyStr filename) (PyInt l) (PyInt i)
                           (py_of_value text) (PyInt l) (PyInt i').

(** The same, about a token that has a text. *)
Definition token_error_of (filename : string) (e : exn) : Prop :=
  exists message l i text i',
    e = OptocadSyntaxError (PyStr message) (PyStr filename) (PyInt l) (PyInt i)
                           (PyStr text) (PyInt l) (PyInt i').

(** Every opener on the stack has its text. *)
Definition nesting_ok (t : OptocadTokenizer) : Prop :=
  Forall (fun token => value token <> None) (_nesting t).

Definition is_opener (t : Token) : bool :=
  match type t with
  | Rule LBRACKET | Rule LPAREN => true
  | _ => false
  end.

Definition is_closer (t : Token) : bool :=
  match type t with
  | Rule RBRACKET | Rule RPAREN => true
  | _ => false
  end.

(** The number of tokens of [tokens] that satisfy [p]. *)
Definition count_tokens (p : Token -> bool) (tokens : list Token) : nat :=
  List.length (filter p tokens).

(** Every match of the rules takes at least one character. *)
Definition progresses (matcher : string -> nat -> option (rule * nat)) : Prop :=
  forall line index r e, matcher line index = Some (r, e) -> index < e.


Definition lineno_le (a b : Token) : Prop := lineno a <= lineno b.

(** Every match of the rules takes at least one character and ends within
    the line. *)
Definition within_line (matcher : string -> nat -> option (rule * nat)) : Prop :=
  forall line index r e,
    matcher line index = Some (r, e) -> index < e <= String.length line.

(** What a token adds to [_lineno]: [len(token.value)] for a NEWLINE that
    matched, 1 for the implicit NEWLINE, nothing for another token. *)
Definition newlines_of (token : Token) : nat :=
  if token_type_eqb (type token) NEWLINE
  then match value token with Some v => String.length v | None => 1 end
  else 0.

(** The tokens are numbered from the line [l], each NEWLINE moving the
    number of the tokens after it. *)
Fixpoint numbered_from (l : nat) (tokens : list Token) : Prop :=
  match tokens with
  | [] => True
  | token :: rest => lineno token = l /\ numbered_from (l + newlines_of token) rest
  end.

Open Scope list_scope.

(** ** The invariant of the parser *)

Definition no_endmarker (ts : list Token) : Prop :=
  Forall (fun t => type t <> ENDMARKER) ts.

(** A token that a rule other than NEWLINE names carries its text. *)
Definition has_text (t : Token) : Prop :=
  forall r, type t = Rule r -> r <> NEWLINE -> value t <> None.

(** A position of the buffer [ts] with no ENDMARKER before it. *)
Definition mark_ok (q : nat) (ts : list Token) : Prop :=
  q <= List.length ts /\ no_endmarker (firstn q ts).

(** What a production returns when it succeeds. *)
Definition kind_of (p : Prod.name) (r : result) : Prop :=
  match p with
  | Prod.start => r = RScript
  | Prod.script_line =>
      match r with RCommand _ | RSecondary _ | REMPTY => True | _ => False end
  | Prod.command => match r with RCommand _ | RSecondary _ => True | _ => False end
  | Prod.command_params => match r with RParams _ _ => True | _ => False end
  | Prod.command_value_list => match r with RList _ => True | _ => False end
  | Prod.command_key_value_list | Prod.key_value =>
      match r with RDict _ => True | _ => False end
  | Prod.action => match r with RValue (VStr _) => True | _ => False end
  | Prod.positional_value | Prod.value | Prod.expr | Prod.expr1 | Prod.expr2
  | Prod.expr3 | Prod.expr4 => match r with RValue _ => True | _ => False end
  | Prod.invalid_expr4 => False
  end.

(** What a memoized call returns: [None], or a token of the type asked for
    (the ENDMARKER apart, which ends the parse), or a result of the kind of
    the production. *)
Definition kind_ok (key : memo_key) (res : option result) : Prop :=
  match res with
  | None => True
  | Some r =>
      match key with
      | KToken arg =>
          match r with
          | RToken t => type t = arg /\ has_text t /\ arg <> ENDMARKER
          | _ => False
          end
      | KProd p => kind_of p r
      end
  end.

(** An entry of the memo table: the end position is a position of the buffer
    before the ENDMARKER, the result has the kind of the key, and a failure
    ends where it started. *)
Definition entry_ok (ts : list Token) (m : memo) : Prop :=
  let '(p, key, (res, endpos)) := m in
  mark_ok endpos ts /\ kind_ok key res /\ (res = None -> endpos = p).

(** The exceptions that leave the parser of the file [filename]: a syntax
    error about the file, and the three failures of a [raise] or of a
    concatenation of the productions. *)
Definition allowed (filename : string) (e : exn) : Prop :=
  syntax_error_of filename e \/
  e = AttributeError "OptocadTokenizer" "lineno" \/
  e = TypeError "OptocadSyntaxError.__init__(): wrong number of positional arguments" \/
  e = TypeError "can only concatenate str (not int) to str".

Definition stream_ok (s : OptocadParser) : Prop :=
  match snd (_token_stream s) with
  | Done => Exists (fun t => type t = ENDMARKER) (tokens s ++ fst (_token_stream s))
  | Raised e => allowed (parser_filename s) e
  | Stuck => True
  end.

Definition good (s : OptocadParser) : Prop :=
  mark_ok (pos s) (tokens s) /\
  Forall (entry_ok (tokens s)) (memos s) /\
  Forall has_text (tokens s ++ fst (_token_stream s)) /\
  stream_ok s.

(** The buffer of [s'] is the buffer of [s] followed by tokens pulled from
    the stream of [s], in their order. *)
Definition extends (s s' : OptocadParser) : Prop :=
  parser_filename s' = parser_filename s /\
  snd (_token_stream s') = snd (_token_stream s) /\
  exists pulled,
    tokens s' = tokens s ++ pulled /\
    fst (_token_stream s) = pulled ++ fst (_token_stream s').

(** From a state that satisfies [P], the computation [m] either returns a
    value and a state that extend the first and satisfy [Q], or raises an
    exception that is allowed, or runs out of fuel. *)
Definition hoare {A} (P : OptocadParser -> Prop) (m : M A)
           (Q : A -> OptocadParser -> Prop) : Prop :=
  forall s, P s ->
    match m s with
    | (Ok a, s') => extends s s' /\ Q a s'
    | (Raise e, _) => allowed (parser_filename s) e
    | (Diverge, _) => True
    end.

(** The state is good and [q], a mark taken before, is still a position of
    the buffer before the ENDMARKER. *)
Definition inv (q : nat) (s : OptocadParser) : Prop :=
  good s /\ mark_ok q (tokens s).
Open Scope list_scope.

(** A call that keeps the state good and returns a value that satisfies [K]. *)
Definition comp {A} (m : M A) (K : A -> Prop) : Prop :=
  hoare good m (fun a s' => good s' /\ K a).

(** A memoized call at the key [key]: from the position [q] it returns a
    result of the kind of [key], and when it fails the cursor is at [q]. *)
Definition strong (key : memo_key) (m : M (option result)) : Prop :=
  forall q,
    hoare (fun s => good s /\ pos s = q) m
          (fun r s' => good s' /\ kind_ok key r /\ (r = None -> pos s' = q)).
Open Scope list_scope.

(** What the body of a production establishes from the mark [q]: a good
    state, a result that satisfies [K], and the cursor at [q] on a failure. *)
Definition Qb (K : option result -> Prop) (q : nat)
  : option result -> OptocadParser -> Prop :=
  fun r s' => good s' /\ K r /\ (r = None -> pos s' = q).

(** What a chain of conditions establishes: when its body returns, the value
    is a result that satisfies [K]. *)
Definition Qc (K : option result -> Prop) (q : nat)
  : option (option result) -> OptocadParser -> Prop :=
  fun c s' => inv q s' /\ match c with Some v => v <> None /\ K v | None => True end.

(** The result of an optional token. *)
Definition maybe_kind (arg : token_type) (r : option result) : Prop :=
  exists r0, r = Some r0 /\ (r0 = REMPTY \/ kind_ok (KToken arg) (Some r0)).
Open Scope string_scope.

(** The parser at the start of the parse of [m1 1] under the token rules of
    the examples. *)
Definition example_parser : OptocadParser :=
  ready_parser "script.ocd"
    (tokenize_file optocad_matcher (text_file "script.ocd" ("m1 1" ++ nl)%string)).

(** ** The text of the containers *)

(** [str(x)] for a string or [None]. *)
Definition str_or_none (x : option string) : string :=
  match x with Some s => s | None => "None" end.

(** [sep.join(items)]. *)
Fixpoint join (sep : string) (items : list string) : string :=
  match items with
  | [] => EmptyString
  | [x] => x
  | x :: items' => x ++ sep ++ join sep items'
  end.

(** [str(value)]: [__str__] of [OptocadUnaryExpression] and of
    [OptocadBinaryExpression], and the string itself. *)
Fixpoint Value_str (v : Value) : string :=
  match v with
  | VStr s => s
  | VUnary operator argument => str_or_none operator ++ Value_str argument
  | VBinary operator lhs rhs => Value_str lhs ++ str_or_none operator ++ Value_str rhs
  end.

Definition args_str (args : list Value) : string := join ", " (map Value_str args).

Definition kwargs_str (kwargs : dict) : string :=
  join ", " (map (fun kv => str_or_none (fst kv) ++ "=" ++ Value_str (snd kv)) kwargs).

(** [OptocadSecondarySurfaceCommand.__str__]. *)
Definition OptocadSecondarySurfaceCommand_str (c : OptocadSecondarySurfaceCommand) : string :=
  String TAB "+ " ++ args_str (s_args c) ++ ", " ++ kwargs_str (s_kwargs c).

(** [OptocadCommand.__str__]. *)
Definition OptocadCommand_str (c : OptocadCommand) : string :=
  let string := str_or_none (directive c) ++ " " ++ args_str (args c) ++ ", "
                ++ kwargs_str (kwargs c) in
  match secondary_surfaces c with
  | [] => string
  | _ => string ++ nl ++ join nl (map OptocadSecondarySurfaceCommand_str (secondary_surfaces c))
  end.

(** The keys of a dict, in its order. *)
Definition keys (d : dict) : list (option string) := map fst d.

Definition has_key (d : dict) (k : option string) : bool := existsb (key_eqb k) (keys d).

(** * Properties *)

Lemma rule_eqb_eq (a b : rule) : rule_eqb a b = true <-> a = b.
Proof. split; [destruct a, b; simpl; congruence | intros ->; destruct b; reflexivity]. Qed.

Lemma token_type_eqb_eq (a b : token_type) : token_type_eqb a b = true <-> a = b.
Proof.
  destruct a as [r| |], b as [r'| |]; simpl; try (split; congruence).
  rewrite rule_eqb_eq. split; congruence.
Qed.

Lemma match_eqb_eq a b : match_eqb a b = true -> a = b.
Proof.
  destruct a as [[r e]|], b as [[r' e']|]; simpl; try congruence.
  intros H. apply andb_prop in H. destruct H as [H1 H2].
  apply rule_eqb_eq in H1. apply Nat.eqb_eq in H2. congruence.
Qed.

Lemma check_table_lexes matcher table :
  check_table matcher table = true -> lexes matcher table.
Proof.
  unfold lexes. induction table as [|[l spans] table IH]; simpl; [discriminate|].
  intros H line index m. apply andb_prop in H. destruct H as [Hl Ht].
  destruct (String.eqb_spec line l) as [->|_]; [|apply IH, Ht].
  clear IH Ht. induction spans as [|[[i r] e] spans IH]; simpl in *; [discriminate|].
  apply andb_prop in Hl. destruct Hl as [Hm Hs].
  destruct (Nat.eqb_spec index i) as [->|_]; [|apply IH, Hs].
  intros [= <-]. apply match_eqb_eq, Hm.
Qed.

(** ** The tokenizer asks the rules for the matches of the table only *)

Section Agreement.

Variables matcher table_rules : string -> nat -> option (rule * nat).

Lemma lexing_error_is_lexing_error t token :
  is_lexing_error (Raised (_raise_lexing_error t token)) = true.
Proof. reflexivity. Qed.

Lemma scan_line_agree line
      (Hsub : forall index m, table_rules line index = Some m -> matcher line index = Some m)
      fuel :
  forall t,
    match snd (fst (scan_line table_rules fuel line t)) with
    | Some e => is_lexing_error e = false
    | None => True
    end ->
    scan_line matcher fuel line t = scan_line table_rules fuel line t.
Proof.
  induction fuel as [|fuel IH]; intros t; cbn [scan_line].
  - reflexivity.
  - destruct (Nat.ltb (_index t) (String.length line)); [|reflexivity].
    destruct (String.get (_index t) line) as [c|]; [|reflexivity].
    destruct (char_in c _IGNORE); [apply IH|].
    destruct (table_rules line (_index t)) as [[r e]|] eqn:Hm.
    + rewrite (Hsub _ _ Hm).
      destruct (token_callback r _ _) as [x|t']; [reflexivity|].
      destruct (Nat.leb e (_index t)); [reflexivity|].
      intros H. rewrite IH; [reflexivity|].
      destruct (scan_line table_rules fuel line _) as [[tokens e'] t'']; exact H.
    + cbn [fst snd]. rewrite lexing_error_is_lexing_error. discriminate.
Qed.

Lemma read_loop_agree
      (Hsub : forall line index m, table_rules line index = Some m -> matcher line index = Some m)
      lines :
  forall line t,
    is_lexing_error (snd (read_loop table_rules lines line t)) = false ->
    read_loop matcher lines line t = read_loop table_rules lines line t.
Proof.
  induction lines as [|l lines IH]; intros line t; cbn [read_loop].
  - reflexivity.
  - intros H.
    rewrite (@scan_line_agree l (Hsub l)).
    + destruct (scan_line table_rules _ l _) as [[tokens e] t'].
      destruct e as [e|]; [reflexivity|].
      rewrite IH; [reflexivity|].
      destruct (read_loop table_rules lines l t'); exact H.
    + destruct (scan_line table_rules _ l _) as [[tokens e] t'].
      destruct e as [e|]; cbn [fst snd] in *; [exact H|exact I].
Qed.

Lemma tokenize_file_agree
      (Hsub : forall line index m, table_rules line index = Some m -> matcher line index = Some m)
      f :
  is_lexing_error (snd (tokenize_file table_rules f)) = false ->
  tokenize_file matcher f = tokenize_file table_rules f.
Proof.
  unfold tokenize_file. destruct (name f); [|reflexivity].
  apply read_loop_agree, Hsub.
Qed.

End Agreement.

Lemma tokenize_file_table matcher table f :
  lexes matcher table ->
  is_lexing_error (snd (tokenize_file (table_matcher table) f)) = false ->
  tokenize_file matcher f = tokenize_file (table_matcher table) f.
Proof. intros H. apply tokenize_file_agree. exact H. Qed.

Lemma parse_file_table matcher table fuel f :
  lexes matcher table ->
  is_lexing_error (snd (tokenize_file (table_matcher table) f)) = false ->
  parse_file matcher fuel f = parse_file (table_matcher table) fuel f.
Proof.
  intros H Hc. unfold parse_file. now rewrite (@tokenize_file_table _ _ _ H Hc).
Qed.

(** ** The string entry points *)

(** C1. For every string, [parse] raises [AttributeError] before any token is
    consumed: [parse_file] reads [fobj.name] on the [StringIO] that wraps the
    string, whatever the fuel and the token rules; the token buffer is still
    empty, and the generator of [tokenize] raises the same error before it
    yields a token. *)
Theorem parse_string_raises_AttributeError
        (matcher : string -> nat -> option (rule * nat)) (fuel : nat) (s : string) :
  fst (parse matcher fuel s) = Raise (AttributeError "StringIO" "name") /\
  tokens (snd (parse matcher fuel s)) = [] /\
  tokenize matcher s = ([], Raised (AttributeError "StringIO" "name")).
Proof. repeat split. Qed.

(** ** The scenarios of the grammar *)

(** Rewrites a parse under rules that lex as [table] says into the parse
    under the rules of the table, and evaluates it. *)
Ltac run_parser H :=
  rewrite ?(@parse_file_table _ _ _ _ H) by reflexivity;
  rewrite ?(@tokenize_file_table _ _ _ H) by reflexivity;
  vm_compute; try reflexivity.

(** C2. When the rules lex [m1 crv] and [m1 crx] as two names and a line end,
    the first script parses to one command whose only positional value is the
    action [crv]; on the second the action alternative fails, and so does
    [expr4], which has no alternative for a NAME: no production accepts [crx]
    and [parse_file] raises the syntax error of [_diagnose_error] at the last
    token of the buffer. *)
Theorem action_name_and_other_name matcher fname k :
  lexes matcher crv_table ->
  fst (parse_file matcher (16 + k) (text_file fname ("m1 crv" ++ nl))) =
    Ok [mkCommand (Some "m1") [VStr "crv"] [] []] /\
  fst (parse_file matcher (16 + k) (text_file fname ("m1 crx" ++ nl))) =
    Raise (OptocadSyntaxError (PyStr "syntax error") (PyStr fname) (PyInt 1) (PyInt 7)
                              (PyStr nl) (PyInt 1) (PyInt 8)).
Proof. intros H. split; run_parser H. Qed.

Lemma action_name_and_other_name_witness :
  lexes optocad_matcher crv_table /\
  fst (parse_file optocad_matcher 16 (text_file "script.ocd" ("m1 crv" ++ nl))) =
    Ok [mkCommand (Some "m1") [VStr "crv"] [] []] /\
  fst (parse_file optocad_matcher 16 (text_file "script.ocd" ("m1 crx" ++ nl))) =
    Raise (OptocadSyntaxError (PyStr "syntax error") (PyStr "script.ocd") (PyInt 1) (PyInt 7)
                              (PyStr nl) (PyInt 1) (PyInt 8)).
Proof.
  assert (H : lexes optocad_matcher crv_table) by (apply check_table_lexes; reflexivity).
  split; [exact H|].
  exact (action_name_and_other_name "script.ocd" 0 H).
Defined.

(** C3. [parse] on the script [m1 1] followed by [+ 2] returns no script: as
    on every string, it raises the [AttributeError] of [fobj.name] before a
    token is read. When the same text comes from a file with a name, and the
    rules lex the two lines as NAME NUMBER NEWLINE and PLUS NUMBER NEWLINE,
    [parse_file] returns exactly one command, [m1], whose
    [secondary_surfaces] holds exactly the secondary surface command of the
    line that starts with [+]: its parameters go to the last command of the
    script, not to the script. The positional values are the strings that
    the NUMBER tokens hold, which nothing converts to numbers. *)
Theorem secondary_surface_script_raises_AttributeError matcher fname fuel k :
  lexes matcher secondary_table ->
  fst (parse matcher fuel ("m1 1" ++ nl ++ "+ 2" ++ nl)) =
    Raise (AttributeError "StringIO" "name") /\
  fst (parse_file matcher (16 + k) (text_file fname ("m1 1" ++ nl ++ "+ 2" ++ nl))) =
    Ok [mkCommand (Some "m1") [VStr "1"] [] [mkSecondary [VStr "2"] []]].
Proof. intros H. split; [reflexivity|run_parser H]. Qed.

Lemma secondary_surface_script_raises_AttributeError_witness :
  lexes optocad_matcher secondary_table /\
  fst (parse optocad_matcher 16 ("m1 1" ++ nl ++ "+ 2" ++ nl)) =
    Raise (AttributeError "StringIO" "name") /\
  fst (parse_file optocad_matcher 16 (text_file "script.ocd" ("m1 1" ++ nl ++ "+ 2" ++ nl))) =
    Ok [mkCommand (Some "m1") [VStr "1"] [] [mkSecondary [VStr "2"] []]].
Proof.
  assert (H : lexes optocad_matcher secondary_table) by (apply check_table_lexes; reflexivity).
  split; [exact H|].
  exact (secondary_surface_script_raises_AttributeError "script.ocd" 16 0 H).
Defined.

(** C4. On the script [+ 1], whose first command has no primary command
    before it, [script_line] reaches the handler of the [IndexError], but the
    arguments of the error it means to raise read [self._tokenizer.lineno],
    which no tokenizer has: what leaves [parse_file] is an [AttributeError],
    not a syntax error with the message of the handler. The same holds at
    every use of [raise_structural_error]. *)
Theorem orphan_secondary_surface_raises_AttributeError matcher fname k :
  lexes matcher orphan_table ->
  fst (parse_file matcher (16 + k) (text_file fname ("+ 1" ++ nl))) =
    Raise (AttributeError "OptocadTokenizer" "lineno") /\
  ~ located_syntax_error "secondary surface missing primary surface"
      (AttributeError "OptocadTokenizer" "lineno") /\
  forall c s, optocad_script s = [] ->
    fst (append_to_previous c s) = Raise (AttributeError "OptocadTokenizer" "lineno").
Proof.
  intros H. split; [run_parser H|]. split.
  - intros (f & l & i & t & el & ei & E). discriminate E.
  - intros c s E. unfold append_to_previous. rewrite E. reflexivity.
Qed.

Lemma orphan_secondary_surface_raises_AttributeError_witness :
  lexes optocad_matcher orphan_table /\
  fst (parse_file optocad_matcher 16 (text_file "script.ocd" ("+ 1" ++ nl))) =
    Raise (AttributeError "OptocadTokenizer" "lineno").
Proof.
  assert (H : lexes optocad_matcher orphan_table) by (apply check_table_lexes; reflexivity).
  split; [exact H|].
  exact (proj1 (orphan_secondary_surface_raises_AttributeError "script.ocd" 0 H)).
Defined.

(** C5. On the script [m1 x=], the second alternative of [key_value] finds
    NAME and [=] and no value and goes on to raise, but the arguments of the
    error read [self._tokenizer.lineno]: what leaves [parse_file] is an
    [AttributeError], not a syntax error with the message [missing value]. *)
Theorem missing_value_raises_AttributeError matcher fname k :
  lexes matcher missing_value_table ->
  fst (parse_file matcher (16 + k) (text_file fname ("m1 x=" ++ nl))) =
    Raise (AttributeError "OptocadTokenizer" "lineno") /\
  ~ located_syntax_error "missing value" (AttributeError "OptocadTokenizer" "lineno") /\
  forall text s,
    fst (@raise_structural_error (option (option result)) "missing value" text s) =
      Raise (AttributeError "OptocadTokenizer" "lineno").
Proof.
  intros H. split; [run_parser H|]. split.
  - intros (f & l & i & t & el & ei & E). discriminate E.
  - reflexivity.
Qed.

Lemma missing_value_raises_AttributeError_witness :
  lexes optocad_matcher missing_value_table /\
  fst (parse_file optocad_matcher 16 (text_file "script.ocd" ("m1 x=" ++ nl))) =
    Raise (AttributeError "OptocadTokenizer" "lineno").
Proof.
  assert (H : lexes optocad_matcher missing_value_table) by (apply check_table_lexes; reflexivity).
  split; [exact H|].
  exact (proj1 (missing_value_raises_AttributeError "script.ocd" 0 H)).
Defined.

(** ** Keyword parameters *)

Lemma key_eqb_eq a b : key_eqb a b = true <-> a = b.
Proof.
  destruct a as [x|], b as [y|]; simpl; try (split; congruence).
  rewrite String.eqb_eq. split; congruence.
Qed.

Lemma key_eqb_refl a : key_eqb a a = true.
Proof. now apply key_eqb_eq. Qed.

Lemma dict_get_set k k' v d :
  dict_get k (dict_set k' v d) = if key_eqb k k' then Some v else dict_get k d.
Proof.
  induction d as [|[k0 v0] d IH]; simpl.
  - reflexivity.
  - destruct (key_eqb k' k0) eqn:E1; simpl.
    + apply key_eqb_eq in E1. subst k0. destruct (key_eqb k k'); reflexivity.
    + rewrite IH. destruct (key_eqb k k0) eqn:E2; [|reflexivity].
      apply key_eqb_eq in E2. subst k0.
      destruct (key_eqb k k') eqn:E3; [|reflexivity].
      apply key_eqb_eq in E3. subst k'. now rewrite key_eqb_refl in E1.
Qed.

Lemma dict_get_absent k d : ~ In k (map fst d) -> dict_get k d = None.
Proof.
  induction d as [|[k0 v0] d IH]; simpl; [reflexivity|].
  intros H. destruct (key_eqb k k0) eqn:E.
  - apply key_eqb_eq in E. subst. tauto.
  - apply IH. tauto.
Qed.

(** After the items of [d] are set one after the other, a key of [d] has the
    value [d] gives it. *)
Lemma dict_get_update d :
  NoDup (map fst d) ->
  forall acc k,
    dict_get k (fold_left (fun d kv => dict_set (fst kv) (snd kv) d) d acc) =
    match dict_get k d with Some v => Some v | None => dict_get k acc end.
Proof.
  induction d as [|[k0 v0] d IH]; simpl; intros Hd acc k; [reflexivity|].
  inversion Hd as [|? ? Hnotin Hd']; subst.
  rewrite (IH Hd'), dict_get_set.
  destruct (key_eqb k k0) eqn:E; [|reflexivity].
  apply key_eqb_eq in E. subst k0. now rewrite (dict_get_absent _ _ Hnotin).
Qed.

Lemma dict_get_merge d1 d2 k v :
  NoDup (map fst d2) ->
  dict_get k d2 = Some v -> dict_get k (dict_merge d1 d2) = Some v.
Proof.
  intros Hd H. unfold dict_merge. now rewrite (@dict_get_update d2 Hd), H.
Qed.

(** The first alternative of [command_key_value_list], once its three
    conditions hold. *)
Lemma command_key_value_list_merges fuel self s s1 s2 s3 d1 nodes d2 :
  self Prod.command_key_value_list s = (Ok (Some (RDict d1)), s1) ->
  loop_token fuel COMMA 1 s1 = (Ok (Some nodes), s2) ->
  self Prod.command_key_value_list s2 = (Ok (Some (RDict d2)), s3) ->
  command_key_value_list fuel self s = (Ok (Some (RDict (dict_merge d1 d2))), s3).
Proof.
  intros H1 H2 H3.
  unfold command_key_value_list, orelse, bind, mark, returns, ret.
  now rewrite H1, H2, H3.
Qed.

(** C6. [parse] on the script [m1 x=1, y=2] returns no command: as on every
    string, it raises the [AttributeError] of [fobj.name]. When the text
    comes from a file with a name, and the rules lex the lines as NAME, then
    NAME = NUMBER twice with a comma between, [parse_file] returns exactly
    one command without positional values whose keyword mapping holds [x]
    then [y]; the values are the strings that the NUMBER tokens hold, not
    numbers. When the first alternative of [command_key_value_list] succeeds
    on two sub-lists, its result is their merge, in which a key of the later
    sub-list has the value this sub-list gives it: on [m1 x=1, x=2] the
    mapping holds [x] once, with the value of the second. *)
Theorem kwargs_script_raises_and_later_key_wins matcher fname fuel k :
  lexes matcher kwargs_table ->
  fst (parse matcher fuel ("m1 x=1, y=2" ++ nl)) =
    Raise (AttributeError "StringIO" "name") /\
  fst (parse_file matcher (16 + k) (text_file fname ("m1 x=1, y=2" ++ nl))) =
    Ok [mkCommand (Some "m1") [] [(Some "x", VStr "1"); (Some "y", VStr "2")] []] /\
  fst (parse_file matcher (16 + k) (text_file fname ("m1 x=1, x=2" ++ nl))) =
    Ok [mkCommand (Some "m1") [] [(Some "x", VStr "2")] []] /\
  (forall fuel self s s1 s2 s3 d1 nodes d2,
      self Prod.command_key_value_list s = (Ok (Some (RDict d1)), s1) ->
      loop_token fuel COMMA 1 s1 = (Ok (Some nodes), s2) ->
      self Prod.command_key_value_list s2 = (Ok (Some (RDict d2)), s3) ->
      command_key_value_list fuel self s = (Ok (Some (RDict (dict_merge d1 d2))), s3)) /\
  (forall d1 d2 key v,
      NoDup (map fst d2) ->
      dict_get key d2 = Some v -> dict_get key (dict_merge d1 d2) = Some v).
Proof.
  intros H. split; [reflexivity|]. split; [run_parser H|]. split; [run_parser H|]. split.
  - apply command_key_value_list_merges.
  - apply dict_get_merge.
Qed.

Lemma kwargs_script_raises_and_later_key_wins_witness :
  lexes optocad_matcher kwargs_table /\
  fst (parse optocad_matcher 16 ("m1 x=1, y=2" ++ nl)) =
    Raise (AttributeError "StringIO" "name") /\
  fst (parse_file optocad_matcher 16 (text_file "script.ocd" ("m1 x=1, y=2" ++ nl))) =
    Ok [mkCommand (Some "m1") [] [(Some "x", VStr "1"); (Some "y", VStr "2")] []] /\
  fst (parse_file optocad_matcher 16 (text_file "script.ocd" ("m1 x=1, x=2" ++ nl))) =
    Ok [mkCommand (Some "m1") [] [(Some "x", VStr "2")] []] /\
  dict_get (Some "x") (dict_merge [(Some "x", VStr "1")] [(Some "x", VStr "2")]) =
    Some (VStr "2").
Proof.
  assert (H : lexes optocad_matcher kwargs_table) by (apply check_table_lexes; reflexivity).
  destruct (kwargs_script_raises_and_later_key_wins "script.ocd" 16 0 H)
    as (H0 & H1 & H2 & _ & H4).
  split; [exact H|]. split; [exact H0|]. split; [exact H1|]. split; [exact H2|].
  apply H4; [|reflexivity].
  simpl. constructor; [intros []|constructor].
Defined.

(** ** Two numbers in a row *)

(** C7. When the rules lex [01] as the two NUMBER tokens 0 and 1, [expr4]
    refuses the first number and calls [invalid_expr4], which finds the two
    numbers; their values are strings, so it takes the branch of the invalid
    number, and the call of [OptocadSyntaxError] with three arguments is a
    [TypeError]: no syntax error is built, in neither branch. *)
Theorem adjacent_numbers_raise_TypeError matcher fname k :
  lexes matcher leading_zero_table ->
  fst (parse_file matcher (16 + k) (text_file fname ("m1 01" ++ nl))) =
    Raise (TypeError "OptocadSyntaxError.__init__(): wrong number of positional arguments") /\
  forall message token s,
    fst (number_error message token s) =
      Raise (TypeError "OptocadSyntaxError.__init__(): wrong number of positional arguments").
Proof. intros H. split; [run_parser H|reflexivity]. Qed.

Lemma adjacent_numbers_raise_TypeError_witness :
  lexes optocad_matcher leading_zero_table /\
  fst (parse_file optocad_matcher 16 (text_file "script.ocd" ("m1 01" ++ nl))) =
    Raise (TypeError "OptocadSyntaxError.__init__(): wrong number of positional arguments").
Proof.
  assert (H : lexes optocad_matcher leading_zero_table) by (apply check_table_lexes; reflexivity).
  split; [exact H|].
  exact (proj1 (adjacent_numbers_raise_TypeError "script.ocd" 0 H)).
Defined.

(** ** The end of the token stream *)

Lemma last_char_cons c r : r <> EmptyString -> last_char (String c r) = last_char r.
Proof. destruct r; [congruence|reflexivity]. Qed.

Lemma readlines_nil s : readlines s = [] -> s = EmptyString.
Proof.
  destruct s as [|c r]; [reflexivity|]. simpl.
  destruct (Ascii.eqb c LF); [discriminate|].
  destruct (readlines r); discriminate.
Qed.

Lemma readlines_nonempty s : Forall (fun l => l <> EmptyString) (readlines s).
Proof.
  induction s as [|c r IH]; simpl; [constructor|].
  destruct (Ascii.eqb c LF).
  - constructor; [discriminate|exact IH].
  - destruct (readlines r) as [|l ls].
    + constructor; [discriminate|constructor].
    + inversion IH; subst. constructor; [discriminate|assumption].
Qed.

Lemma last_cons {A} (x : A) l d : last (x :: l) d = last l x.
Proof.
  revert x d. induction l as [|y l IH]; intros x d; [reflexivity|].
  change (last (x :: y :: l) d) with (last (y :: l) d). now rewrite !IH.
Qed.

(** The last line that [readline] returns ends as the text ends. *)
Lemma last_char_readlines s : last_char (last (readlines s) EmptyString) = last_char s.
Proof.
  induction s as [|c r IH]; [reflexivity|].
  pose proof (readlines_nonempty r) as Hne.
  pose proof (@readlines_nil r) as Hnil.
  assert (Hd : forall l ls (d : string), last (l :: ls) d = last (l :: ls) EmptyString)
    by (intros; now rewrite !last_cons).
  cbn [readlines]. destruct (Ascii.eqb c LF).
  - rewrite last_cons. destruct (readlines r) as [|l ls] eqn:E.
    + rewrite (Hnil eq_refl). reflexivity.
    + rewrite Hd, IH. symmetry. apply last_char_cons. intros ->. discriminate E.
  - destruct (readlines r) as [|l ls] eqn:E.
    + rewrite (Hnil eq_refl). reflexivity.
    + assert (Hr : r <> EmptyString) by (intros ->; discriminate E).
      rewrite (last_char_cons c Hr), <- IH.
      destruct ls as [|l2 ls].
      * inversion Hne; subst. now apply last_char_cons.
      * rewrite !(last_cons _ (l2 :: ls)). now rewrite (Hd l2 ls (String c l)), (Hd l2 ls l).
Qed.

Section EndOfStream.

Variable matcher : string -> nat -> option (rule * nat).

(** Every token of the inner loop comes from a match, and the loop does not
    end the generator normally. *)
Lemma scan_line_tokens line fuel :
  forall t tokens e t',
    scan_line matcher fuel line t = (tokens, e, t') ->
    Forall matched_token tokens /\ e <> Some Done.
Proof.
  induction fuel as [|fuel IH]; intros t tokens e t'; cbn [scan_line].
  - destruct (Nat.ltb _ _); intros [= <- <- <-]; split; (constructor || discriminate).
  - destruct (Nat.ltb _ _); [|intros [= <- <- <-]; split; (constructor || discriminate)].
    destruct (String.get _ _) as [c|];
      [|intros [= <- <- <-]; split; (constructor || discriminate)].
    destruct (char_in c _IGNORE); [apply IH|].
    destruct (matcher line (_index t)) as [[r e0]|];
      [|intros [= <- <- <-]; split; (constructor || discriminate)].
    destruct (token_callback _ _ _) as [x|t1];
      [intros [= <- <- <-]; split; (constructor || discriminate)|].
    destruct (Nat.leb e0 (_index t)).
    + intros [= <- <- <-]. split; [|discriminate].
      constructor; [|constructor]. eexists _, _. split; reflexivity.
    + destruct (scan_line matcher fuel line _) as [[tokens1 e1] t2] eqn:E.
      intros [= <- <- <-]. destruct (IH _ _ _ _ E) as [Hm He].
      split; [|exact He].
      constructor; [|exact Hm]. eexists _, _. split; reflexivity.
Qed.

Lemma read_loop_done lines :
  forall line t tokens,
    read_loop matcher lines line t = (tokens, Done) ->
    exists body tail t',
      tokens = (body ++ tail)%list /\ Forall matched_token body /\
      finish (last lines line) t' = (tail, Done).
Proof.
  induction lines as [|l lines IH]; intros line t tokens; cbn [read_loop].
  - intros H. exists [], tokens, t. repeat split; [constructor|exact H].
  - destruct (scan_line matcher _ l _) as [[tokens1 e] t1] eqn:E.
    destruct (scan_line_tokens _ _ _ E) as [Hm He].
    destruct e as [e|].
    + intros [= <- ->]. congruence.
    + destruct (read_loop matcher lines l t1) as [tokens2 e2] eqn:E2.
      intros [= <- ->].
      destruct (IH _ _ _ E2) as (body & tail & t' & -> & Hb & Hf).
      exists (tokens1 ++ body)%list, tail, t'. rewrite last_cons.
      repeat split; [apply app_assoc|now apply Forall_app|exact Hf].
Qed.

Lemma finish_done previous_line t tail :
  finish previous_line t = (tail, Done) ->
  (lacks_terminator previous_line = true /\
   tail = [mkToken (_lineno t) (_index t + 1) (_index t + 1) NEWLINE None;
           mkToken (_lineno t + 1) 1 1 ENDMARKER None]) \/
  (lacks_terminator previous_line = false /\
   tail = [mkToken (_lineno t) 1 1 ENDMARKER None]).
Proof.
  unfold finish. destruct (raise_unclosed t); [discriminate|].
  destruct (lacks_terminator previous_line); intros [= <-]; [left|right]; now split.
Qed.

(** C8, as the code has it. When the generator ends without an error, the
    tokens are the matched tokens, then exactly one implicit NEWLINE when the
    text does not end in a line terminator and none when it does, then exactly
    one ENDMARKER, the last token. *)
Theorem lexer_ends_with_implicit_newline_and_endmarker fname text :
  snd (tokenize_file matcher (text_file fname text)) = Done ->
  ends_properly text (fst (tokenize_file matcher (text_file fname text))).
Proof.
  unfold tokenize_file. cbn [name contents text_file].
  destruct (read_loop matcher _ _ _) as [tokens e] eqn:E. cbn [fst snd].
  intros ->. destruct (read_loop_done _ _ _ E) as (body & tail & t' & -> & Hb & Hf).
  assert (Hl : lacks_terminator (last (readlines text) EmptyString) = lacks_terminator text)
    by (unfold lacks_terminator; now rewrite last_char_readlines).
  unfold ends_properly.
  destruct (finish_done _ _ Hf) as [[Ht ->]|[Ht ->]]; rewrite Hl in Ht.
  - exists body, [mkToken (_lineno t') (_index t' + 1) (_index t' + 1) NEWLINE None],
      (_lineno t' + 1).
    repeat split; [exact Hb|]. left. split; [exact Ht|]. now eexists _, _.
  - exists body, [], (_lineno t'). repeat split; [exact Hb|]. right. now split.
Qed.

End EndOfStream.

Lemma lexer_ends_with_implicit_newline_and_endmarker_witness :
  snd (tokenize_file optocad_matcher (text_file "script.ocd" "m1 1")) = Done /\
  ends_properly "m1 1" (fst (tokenize_file optocad_matcher (text_file "script.ocd" "m1 1"))).
Proof.
  split; [reflexivity|].
  apply (@lexer_ends_with_implicit_newline_and_endmarker optocad_matcher "script.ocd" "m1 1").
  reflexivity.
Defined.

(** C8, as stated, fails on a text that the lexer refuses: on the text [(]
    followed by nothing the generator yields the parenthesis and raises the
    error of the unclosed opener, so that no NEWLINE and no ENDMARKER follow. *)
Lemma lexer_error_has_no_endmarker :
  lacks_terminator "(" = true /\
  tokenize_file optocad_matcher (text_file "script.ocd" "(") =
    ([mkToken 1 1 2 LPAREN (Some "(")],
     Raised (OptocadSyntaxError (PyStr "unclosed '('") (PyStr "script.ocd") (PyInt 1) (PyInt 1)
                                (PyStr "(") (PyInt 1) (PyInt 2))) /\
  ~ ends_properly "(" (fst (tokenize_file optocad_matcher (text_file "script.ocd" "("))).
Proof.
  split; [reflexivity|]. split; [reflexivity|].
  intros (body & implicit & l & H & Hb & _).
  change (fst (tokenize_file optocad_matcher (text_file "script.ocd" "(")))
    with [mkToken 1 1 2 LPAREN (Some "(")] in H.
  destruct body as [|b body].
  - destruct implicit as [|i implicit]; [discriminate H|].
    destruct implicit; discriminate H.
  - injection H as <- H. destruct body, implicit; discriminate H.
Qed.

(** ** Nesting *)

(** C9. When the rules lex the text of two opening parentheses as two LPAREN
    tokens, the generator yields both and ends with one error, the error of the
    first of the two: the [raise] of the first pass of the loop over the stack
    ends the generator, and the second unclosed opener is not reported.
    Whatever the stack holds after its first token, what follows the outer
    loop is the error of this token alone. *)
Theorem unclosed_openers_raise_one_error matcher fname :
  lexes matcher unclosed_table ->
  tokenize_file matcher (text_file fname "((") =
    ([mkToken 1 1 2 LPAREN (Some "("); mkToken 1 2 3 LPAREN (Some "(")],
     Raised (OptocadSyntaxError (PyStr "unclosed '('") (PyStr fname) (PyInt 1) (PyInt 1)
                                (PyStr "(") (PyInt 1) (PyInt 2))) /\
  forall previous_line t token rest,
    _nesting t = token :: rest ->
    finish previous_line t =
      ([], Raised (_raise_error t ("unclosed '" ++ value_text token ++ "'") token)).
Proof.
  intros H. split; [run_parser H|].
  intros previous_line t token rest E. unfold finish, raise_unclosed. now rewrite E.
Qed.

Lemma unclosed_openers_raise_one_error_witness :
  lexes optocad_matcher unclosed_table /\
  tokenize_file optocad_matcher (text_file "script.ocd" "((") =
    ([mkToken 1 1 2 LPAREN (Some "("); mkToken 1 2 3 LPAREN (Some "(")],
     Raised (OptocadSyntaxError (PyStr "unclosed '('") (PyStr "script.ocd") (PyInt 1) (PyInt 1)
                                (PyStr "(") (PyInt 1) (PyInt 2))).
Proof.
  assert (H : lexes optocad_matcher unclosed_table) by (apply check_table_lexes; reflexivity).
  split; [exact H|].
  exact (proj1 (unclosed_openers_raise_one_error "script.ocd" H)).
Defined.

(** A closer on the empty stack, or on a stack whose top is another opener,
    raises the located error of the extraneous closer at once; on the right
    opener it pops the stack. *)
Lemma closer_checks_the_top opener closer token t :
  match pop (_nesting t) with
  | None =>
      on_closer opener closer token t =
        inl (_raise_error t ("extraneous '" ++ closer ++ "'") token)
  | Some (top, rest) =>
      (value top = Some opener ->
       on_closer opener closer token t = inr (set_nesting rest t)) /\
      (value top <> Some opener ->
       exists e, on_closer opener closer token t = inl e /\
                 located_syntax_error ("extraneous '" ++ closer ++ "'") e)
  end.
Proof.
  unfold on_closer. destruct (pop (_nesting t)) as [[top rest]|]; [|reflexivity].
  split.
  - intros ->. now rewrite String.eqb_refl.
  - intros Hne. destruct (value top) as [v|].
    + destruct (String.eqb_spec v opener) as [->|_]; [congruence|].
      eexists. split; [reflexivity|]. now eexists _, _, _, _, _, _.
    + eexists. split; [reflexivity|]. now eexists _, _, _, _, _, _.
Qed.

(** ** Columns and tabs *)

(** C10. When the rules lex the line of a tab and [m1] as a NAME from the
    index 1 and the line end, the NAME token starts at the column 2 and stops
    at the column 4: the tab that the scan skips before the token counts for
    one column, not for the four of its display. A skipped blank advances
    [_index] and leaves [_taboffset] as it is. *)
Theorem skipped_tab_counts_one_column matcher fname :
  lexes matcher tab_table ->
  tokenize_file matcher (text_file fname (String TAB "m1" ++ nl)) =
    ([mkToken 1 2 4 NAME (Some "m1"); mkToken 1 4 5 NEWLINE (Some nl);
      mkToken 2 1 1 ENDMARKER None], Done) /\
  forall fuel line t c,
    Nat.ltb (_index t) (String.length line) = true ->
    String.get (_index t) line = Some c ->
    char_in c _IGNORE = true ->
    scan_line matcher (S fuel) line t =
      scan_line matcher fuel line (set_position (_index t + 1) (_taboffset t) t).
Proof.
  intros H. split; [run_parser H|].
  intros fuel line t c H1 H2 H3. cbn [scan_line]. now rewrite H1, H2, H3.
Qed.

Lemma skipped_tab_counts_one_column_witness :
  lexes optocad_matcher tab_table /\
  tokenize_file optocad_matcher (text_file "script.ocd" (String TAB "m1" ++ nl)) =
    ([mkToken 1 2 4 NAME (Some "m1"); mkToken 1 4 5 NEWLINE (Some nl);
      mkToken 2 1 1 ENDMARKER None], Done).
Proof.
  assert (H : lexes optocad_matcher tab_table) by (apply check_table_lexes; reflexivity).
  split; [exact H|].
  exact (proj1 (skipped_tab_counts_one_column "script.ocd" H)).
Defined.

(** A tab inside a matched token does widen the columns that follow it. *)
Lemma tab_in_token_widens_columns matcher t :
  _index t = 0 -> _taboffset t = 0 ->
  matcher (String "#" (String TAB nl)) 0 = Some (COMMENT, 2) ->
  matcher (String "#" (String TAB nl)) 2 = Some (NEWLINE, 3) ->
  map (fun token => (start_index token, stop_index token))
      (fst (fst (scan_line matcher 3 (String "#" (String TAB nl)) t))) =
    [(1, 6); (6, 7)].
Proof.
  destruct t as [d sc f n l i o]. simpl. intros -> -> H0 H2.
  cbn [scan_line _index _taboffset _lineno set_position String.length Nat.ltb Nat.leb
       String.get char_in _IGNORE].
  simpl. rewrite H0. simpl. rewrite H2. reflexivity.
Qed.

(** ** Further scenarios, under the token rules of the examples *)

(** The secondary surface goes to the last of the commands before it. *)
Lemma secondary_surface_joins_last_of_two k :
  fst (parse_file optocad_matcher (16 + k)
         (text_file "script.ocd" ("m1 1" ++ nl ++ "m2 2" ++ nl ++ "+ 3" ++ nl))) =
    Ok [mkCommand (Some "m1") [VStr "1"] [] [];
        mkCommand (Some "m2") [VStr "2"] [] [mkSecondary [VStr "3"] []]].
Proof. vm_compute. reflexivity. Qed.

(** Positional values, and the power operator inside a list of them. *)
Lemma positional_values_and_power k :
  fst (parse_file optocad_matcher (16 + k) (text_file "script.ocd" ("m1 1,2" ++ nl))) =
    Ok [mkCommand (Some "m1") [VStr "1"; VStr "2"] [] []] /\
  fst (parse_file optocad_matcher (16 + k) (text_file "script.ocd" ("m1 1,2,3**2" ++ nl))) =
    Ok [mkCommand (Some "m1")
          [VStr "1"; VStr "2"; VBinary (Some "**") (VStr "3") (VStr "2")] [] []].
Proof. split; vm_compute; reflexivity. Qed.

(** The binary operators group to the left, the product before the sum. *)
Lemma sums_group_to_the_left k :
  fst (parse_file optocad_matcher (16 + k) (text_file "script.ocd" "m1 1+2*3-4")) =
    Ok [mkCommand (Some "m1")
          [VBinary (Some "-")
             (VBinary (Some "+") (VStr "1") (VBinary (Some "*") (VStr "2") (VStr "3")))
             (VStr "4")] [] []].
Proof. vm_compute. reflexivity. Qed.

(** The empty text is the empty script. *)
Lemma empty_text_is_empty_script k :
  fst (parse_file optocad_matcher (16 + k) (text_file "script.ocd" EmptyString)) = Ok [].
Proof. vm_compute. reflexivity. Qed.

(** A braced action with a repeat count: [int] succeeds on the count, and the
    concatenation of the string and the integer raises. *)
Lemma repeat_count_raises_TypeError k :
  fst (parse_file optocad_matcher (16 + k) (text_file "script.ocd" ("m1 {crv}2" ++ nl))) =
    Raise (TypeError "can only concatenate str (not int) to str").
Proof. vm_compute. reflexivity. Qed.

(** * Further properties *)

(** ** What the tokenizer raises *)

Lemma token_error_is_syntax_error filename e :
  token_error_of filename e -> syntax_error_of filename e.
Proof.
  intros (message & l & i & text & i' & ->). now exists message, l, i, (Some text), i'.
Qed.

Lemma raise_error_of t message token text :
  value token = Some text ->
  token_error_of (_filename t) (_raise_error t message token).
Proof. intros H. unfold _raise_error. simpl. rewrite H. now eexists _, _, _, _, _. Qed.

Lemma pop_last {A} (l : list A) x rest : pop l = Some (x, rest) -> l = (rest ++ [x])%list.
Proof.
  unfold pop. destruct (rev l) as [|y before] eqn:E; [discriminate|].
  intros [= -> <-]. rewrite <- (rev_involutive l), E. reflexivity.
Qed.

Lemma token_callback_nesting r token t t' text :
  value token = Some text -> nesting_ok t ->
  token_callback r token t = inr t' ->
  nesting_ok t' /\ _filename t' = _filename t.
Proof.
  intros Hv Hn. unfold nesting_ok in *.
  assert (Hpush : Forall (fun token => value token <> None) (_nesting t ++ [token])%list).
  { apply Forall_app. split; [exact Hn|]. constructor; [congruence|constructor]. }
  destruct r; simpl; try (intros [= <-]; simpl; now split);
    unfold on_RBRACKET, on_RPAREN, on_closer;
    destruct (pop (_nesting t)) as [[top rest]|] eqn:Ep; try discriminate;
    destruct (match value top with Some _ => _ | None => _ end); try discriminate;
    intros [= <-]; simpl; (split; [|reflexivity]);
    apply pop_last in Ep; rewrite Ep in Hn; apply Forall_app in Hn; apply Hn.
Qed.

Lemma token_callback_raises r token t e text :
  value token = Some text ->
  token_callback r token t = inl e -> token_error_of (_filename t) e.
Proof.
  intros Hv.
  destruct r; simpl; try discriminate;
    unfold on_RBRACKET, on_RPAREN, on_closer;
    destruct (pop (_nesting t)) as [[top rest]|];
    try destruct (match value top with Some _ => _ | None => _ end);
    intros [= <-]; try discriminate;
    apply (raise_error_of (set_nesting _ t) _ _ Hv) || apply (raise_error_of t _ _ Hv).
Qed.

Section Raises.

Variable matcher : string -> nat -> option (rule * nat).

Lemma scan_line_raises line fuel :
  forall t tokens e t',
    nesting_ok t ->
    scan_line matcher fuel line t = (tokens, e, t') ->
    nesting_ok t' /\ _filename t' = _filename t /\
    forall x, e = Some (Raised x) -> token_error_of (_filename t) x.
Proof.
  induction fuel as [|fuel IH]; intros t tokens e t' Hn; cbn [scan_line].
  - destruct (Nat.ltb _ _); intros [= <- <- <-];
      (split; [exact Hn|split; [reflexivity|discriminate]]).
  - destruct (Nat.ltb _ _); [|intros [= <- <- <-];
      (split; [exact Hn|split; [reflexivity|discriminate]])].
    destruct (String.get _ _) as [c|];
      [|intros [= <- <- <-]; (split; [exact Hn|split; [reflexivity|discriminate]])].
    destruct (char_in c _IGNORE);
      [intros H; exact (IH (set_position (_index t + 1) (_taboffset t) t) _ _ _ Hn H)|].
    destruct (matcher line (_index t)) as [[r e0]|].
    + destruct (token_callback _ _ _) as [x|t1] eqn:Ec.
      * intros [= <- <- <-]. split; [exact Hn|]. split; [reflexivity|].
        intros y [= <-].
        eapply token_callback_raises in Ec; [exact Ec|reflexivity].
      * eapply token_callback_nesting in Ec; [|reflexivity|exact Hn].
        destruct Ec as [Hn1 Ef]. simpl in Ef.
        destruct (Nat.leb e0 (_index t)).
        -- intros [= <- <- <-]. split; [exact Hn1|]. split; [exact Ef|discriminate].
        -- destruct (scan_line matcher fuel line _) as [[tokens1 e1] t2] eqn:E.
           intros [= <- <- <-]. apply IH in E; [|exact Hn1]. destruct E as (Hn2 & Hf & He).
           simpl in Hf, He. rewrite Ef in Hf, He.
           split; [exact Hn2|]. split; [exact Hf|exact He].
    + intros [= <- <- <-]. split; [exact Hn|]. split; [reflexivity|].
      intros y [= <-]. unfold _raise_lexing_error. eapply raise_error_of. reflexivity.
Qed.

Lemma read_loop_raises lines :
  forall line t tokens x,
    nesting_ok t ->
    read_loop matcher lines line t = (tokens, Raised x) ->
    token_error_of (_filename t) x.
Proof.
  induction lines as [|l lines IH]; intros line t tokens x Hn; cbn [read_loop].
  - unfold finish, raise_unclosed. unfold nesting_ok in Hn.
    destruct (_nesting t) as [|token rest].
    + destruct (lacks_terminator line); discriminate.
    + intros [= _ <-]. inversion Hn as [|? ? Hv _]; subst.
      destruct (value token) as [text|] eqn:Ev; [|congruence].
      eapply raise_error_of, Ev.
  - destruct (scan_line matcher _ l _) as [[tokens1 e] t1] eqn:E.
    pose proof E as E'. apply scan_line_raises in E'; [|exact Hn].
    destruct E' as (Hn1 & Hf & He). simpl in Hf, He.
    destruct e as [e|].
    + intros [= _ ->]. now apply He.
    + destruct (read_loop matcher lines l t1) as [tokens2 e2] eqn:E2.
      intros [= _ ->]. rewrite <- Hf. eapply IH; [exact Hn1|exact E2].
Qed.

(** X1. On a file with a name, the only exception the generator raises is
    an [OptocadSyntaxError] whose arguments are a message, the name of the
    file, a line, a start column, a text that is a string, the same line
    again and a stop column. *)
Theorem tokenizer_raises_only_syntax_errors fname text e :
  snd (tokenize_file matcher (text_file fname text)) = Raised e ->
  token_error_of fname e.
Proof.
  unfold tokenize_file. cbn [name contents text_file].
  destruct (read_loop matcher _ _ _) as [tokens e'] eqn:E. cbn [snd]. intros ->.
  apply read_loop_raises in E; [exact E|constructor].
Qed.

End Raises.

Lemma tokenizer_raises_only_syntax_errors_witness :
  snd (tokenize_file optocad_matcher (text_file "script.ocd" ("m1 (1]" ++ nl))) =
    Raised (OptocadSyntaxError (PyStr "extraneous ']'") (PyStr "script.ocd") (PyInt 1) (PyInt 6)
                               (PyStr "]") (PyInt 1) (PyInt 7)) /\
  token_error_of "script.ocd"
    (OptocadSyntaxError (PyStr "extraneous ']'") (PyStr "script.ocd") (PyInt 1) (PyInt 6)
                        (PyStr "]") (PyInt 1) (PyInt 7)).
Proof.
  split; [reflexivity|].
  apply (@tokenizer_raises_only_syntax_errors optocad_matcher "script.ocd" ("m1 (1]" ++ nl)).
  reflexivity.
Defined.

(** ** Openers and closers *)

Lemma pop_length {A} (l : list A) x rest :
  pop l = Some (x, rest) -> List.length l = S (List.length rest).
Proof.
  unfold pop. destruct (rev l) as [|y before] eqn:E; [discriminate|].
  intros [= -> <-]. rewrite <- (rev_involutive l), E.
  rewrite !length_rev. reflexivity.
Qed.

Lemma count_tokens_app p l1 l2 :
  count_tokens p (l1 ++ l2) = count_tokens p l1 + count_tokens p l2.
Proof. unfold count_tokens. now rewrite filter_app, length_app. Qed.

(** The effect of the callback of a token on the depth of the stack. *)
Lemma token_callback_depth r token t t' :
  type token = Rule r ->
  token_callback r token t = inr t' ->
  (if is_opener token then 1 else 0) + List.length (_nesting t) =
  (if is_closer token then 1 else 0) + List.length (_nesting t').
Proof.
  unfold is_opener, is_closer. intros ->.
  destruct r; simpl; try (intros [= <-]; reflexivity);
    try (intros [= <-]; simpl; rewrite length_app; simpl; lia);
    unfold on_RBRACKET, on_RPAREN, on_closer;
    destruct (pop (_nesting t)) as [[top rest]|] eqn:E; try discriminate;
    destruct (match value top with Some _ => _ | None => _ end);
    intros [= <-]; simpl; apply pop_length in E; lia.
Qed.

Section Depth.

Variable matcher : string -> nat -> option (rule * nat).

Lemma scan_line_depth line fuel :
  forall t tokens e t',
    scan_line matcher fuel line t = (tokens, e, t') ->
    count_tokens is_opener tokens + List.length (_nesting t) =
    count_tokens is_closer tokens + List.length (_nesting t').
Proof.
  induction fuel as [|fuel IH]; intros t tokens e t'; cbn [scan_line].
  - destruct (Nat.ltb _ _); intros [= <- <- <-]; reflexivity.
  - destruct (Nat.ltb _ _); [|intros [= <- <- <-]; reflexivity].
    destruct (String.get _ _) as [c|]; [|intros [= <- <- <-]; reflexivity].
    destruct (char_in c _IGNORE); [intros H; apply (IH _ _ _ _ H)|].
    destruct (matcher line (_index t)) as [[r e0]|]; [|intros [= <- <- <-]; reflexivity].
    destruct (token_callback _ _ _) as [x|t1] eqn:Ec; [intros [= <- <- <-]; reflexivity|].
    apply token_callback_depth in Ec; [|reflexivity]. cbn [_nesting set_position] in Ec.
    destruct (Nat.leb e0 (_index t)).
    + intros [= <- <- <-]. unfold count_tokens. cbn [filter].
      destruct (is_opener _), (is_closer _); cbn [List.length] in *; lia.
    + destruct (scan_line matcher fuel line _) as [[tokens1 e1] t2] eqn:E.
      intros [= <- <- <-]. apply IH in E. cbn [_nesting set_position] in E.
      unfold count_tokens in *. cbn [filter].
      destruct (is_opener _), (is_closer _); cbn [List.length] in *; lia.
Qed.

Lemma read_loop_depth lines :
  forall line t tokens,
    read_loop matcher lines line t = (tokens, Done) ->
    count_tokens is_opener tokens + List.length (_nesting t) =
    count_tokens is_closer tokens.
Proof.
  induction lines as [|l lines IH]; intros line t tokens; cbn [read_loop].
  - unfold finish, raise_unclosed. destruct (_nesting t) as [|token rest]; [|discriminate].
    destruct (lacks_terminator line); intros [= <-]; reflexivity.
  - destruct (scan_line matcher _ l _) as [[tokens1 e] t1] eqn:E.
    pose proof E as E'. apply scan_line_tokens in E'. destruct E' as [_ He].
    apply scan_line_depth in E. cbn [_nesting set_position add_line] in E.
    destruct e as [e|]; [intros [= <- ->]; congruence|].
    destruct (read_loop matcher lines l t1) as [tokens2 e2] eqn:E2.
    intros [= <- ->]. apply IH in E2. rewrite !count_tokens_app. lia.
Qed.

(** X2. When the generator ends without an error, it has yielded as many
    closing brackets and parentheses as opening ones. *)
Theorem openers_and_closers_balance fname text :
  snd (tokenize_file matcher (text_file fname text)) = Done ->
  count_tokens is_opener (fst (tokenize_file matcher (text_file fname text))) =
  count_tokens is_closer (fst (tokenize_file matcher (text_file fname text))).
Proof.
  unfold tokenize_file. cbn [name contents text_file].
  destruct (read_loop matcher _ _ _) as [tokens e'] eqn:E. cbn [fst snd]. intros ->.
  apply read_loop_depth in E. cbn [_nesting List.length] in E. lia.
Qed.

End Depth.

Lemma openers_and_closers_balance_witness :
  snd (tokenize_file optocad_matcher (text_file "script.ocd" ("m1 [(1)]" ++ nl))) = Done /\
  count_tokens is_opener
    (fst (tokenize_file optocad_matcher (text_file "script.ocd" ("m1 [(1)]" ++ nl)))) = 2 /\
  count_tokens is_closer
    (fst (tokenize_file optocad_matcher (text_file "script.ocd" ("m1 [(1)]" ++ nl)))) = 2.
Proof.
  split; [reflexivity|].
  pose proof (@openers_and_closers_balance optocad_matcher "script.ocd" ("m1 [(1)]" ++ nl)
                eq_refl) as H.
  split; [reflexivity|]. rewrite <- H. reflexivity.
Defined.

(** ** The generator ends *)

Lemma get_in_range s : forall i, i < String.length s -> String.get i s <> None.
Proof.
  induction s as [|c s IH]; simpl; intros i H; [lia|].
  destruct i; [discriminate|]. apply IH. lia.
Qed.

Section Termination.

Variable matcher : string -> nat -> option (rule * nat).
Hypothesis Hprogress : progresses matcher.

Lemma scan_line_not_stuck line fuel :
  forall t tokens e t',
    String.length line <= fuel + _index t ->
    scan_line matcher fuel line t = (tokens, e, t') ->
    e <> Some Stuck.
Proof.
  induction fuel as [|fuel IH]; intros t tokens e t' Hf; cbn [scan_line].
  - destruct (Nat.ltb_spec (_index t) (String.length line)); [lia|].
    intros [= <- <- <-]. discriminate.
  - destruct (Nat.ltb_spec (_index t) (String.length line)) as [Hlt|];
      [|intros [= <- <- <-]; discriminate].
    destruct (String.get _ _) as [c|] eqn:Eg; [|now apply get_in_range in Hlt].
    destruct (char_in c _IGNORE).
    + apply IH. cbn [_index set_position]. lia.
    + destruct (matcher line (_index t)) as [[r e0]|] eqn:Em;
        [|intros [= <- <- <-]; discriminate].
      apply Hprogress in Em.
      destruct (token_callback _ _ _) as [x|t1]; [intros [= <- <- <-]; discriminate|].
      destruct (Nat.leb_spec e0 (_index t)); [lia|].
      destruct (scan_line matcher fuel line _) as [[tokens1 e1] t2] eqn:E.
      intros [= <- <- <-]. apply IH in E; [exact E|]. cbn [_index set_position]. lia.
Qed.

Lemma read_loop_not_stuck lines :
  forall line t, snd (read_loop matcher lines line t) <> Stuck.
Proof.
  induction lines as [|l lines IH]; intros line t; cbn [read_loop].
  - unfold finish. destruct (raise_unclosed t); [discriminate|].
    destruct (lacks_terminator line); discriminate.
  - destruct (scan_line matcher _ l _) as [[tokens1 e] t1] eqn:E.
    apply scan_line_not_stuck in E; [|cbn [_index set_position]; lia].
    destruct e as [e|]; [cbn [snd]; congruence|].
    specialize (IH l t1). destruct (read_loop matcher lines l t1). exact IH.
Qed.

(** X3. When no rule matches the empty string, the generator always ends:
    with the ENDMARKER or with an exception, never in a scan that does not
    advance. *)
Theorem tokenizer_ends f :
  snd (tokenize_file matcher f) = Done \/ exists e, snd (tokenize_file matcher f) = Raised e.
Proof.
  unfold tokenize_file. destruct (name f) as [filename|].
  - pose proof (read_loop_not_stuck (readlines (contents f)) EmptyString
                  {| done := false; script := []; _filename := filename; _nesting := [];
                     _lineno := 1; _index := 0; _taboffset := 0 |}) as H.
    destruct (snd (read_loop _ _ _ _)) as [|e|]; [now left|right; now exists e|congruence].
  - right. now eexists.
Qed.

End Termination.

Lemma span_le p s : span p s <= String.length s.
Proof. induction s as [|c s IH]; simpl; [lia|]. destruct (p c); lia. Qed.

Lemma literal_progress s r n : literal s = Some (r, n) -> 1 <= n.
Proof.
  unfold literal. destruct (String.prefix "**" s); [intros [= <- <-]; lia|].
  destruct (String.prefix "//" s); [intros [= <- <-]; lia|].
  destruct s as [|c s]; [discriminate|].
  destruct c as [[] [] [] [] [] [] [] []]; try discriminate; intros [= <- <-]; lia.
Qed.

Lemma token_rules_progress s r n : token_rules s = Some (r, n) -> 1 <= n.
Proof.
  unfold token_rules. destruct s as [|c s]; [discriminate|].
  destruct (Ascii.eqb c LF); [intros [= <- <-]; lia|].
  destruct (Ascii.eqb c "#"); [intros [= <- <-]; lia|].
  destruct (number_length _); [|intros [= <- <-]; lia].
  destruct (string_length _); [|intros [= <- <-]; lia].
  destruct (is_name_start c); [intros [= <- <-]; lia|].
  apply literal_progress.
Qed.

Lemma optocad_matcher_progresses : progresses optocad_matcher.
Proof.
  intros line index r e. unfold optocad_matcher.
  destruct (token_rules _) as [[r' n]|] eqn:E; [|discriminate].
  apply token_rules_progress in E. intros [= <- <-]. lia.
Qed.

Lemma tokenizer_ends_witness :
  progresses optocad_matcher /\
  (snd (tokenize_file optocad_matcher (text_file "script.ocd" ("m1 1" ++ nl))) = Done \/
   exists e, snd (tokenize_file optocad_matcher (text_file "script.ocd" ("m1 1" ++ nl))) =
             Raised e).
Proof.
  split; [exact optocad_matcher_progresses|].
  exact (@tokenizer_ends optocad_matcher optocad_matcher_progresses
           (text_file "script.ocd" ("m1 1" ++ nl))).
Defined.

(** ** Lines and columns *)

Lemma strongly_sorted_app {A} (R : A -> A -> Prop) l1 l2 :
  StronglySorted R l1 -> StronglySorted R l2 ->
  (forall a b, In a l1 -> In b l2 -> R a b) ->
  StronglySorted R (l1 ++ l2).
Proof.
  induction l1 as [|x l1 IH]; simpl; intros H1 H2 H; [exact H2|].
  apply StronglySorted_inv in H1. destruct H1 as [H1 Hx].
  constructor.
  - apply IH; [exact H1|exact H2|]. intros a b Ha Hb. apply H; [now right|exact Hb].
  - apply Forall_app. split; [exact Hx|].
    apply Forall_forall. intros b Hb. apply H; [now left|exact Hb].
Qed.

Lemma token_callback_lineno r token t t' :
  token_callback r token t = inr t' -> _lineno t <= _lineno t'.
Proof.
  destruct r; simpl; try (intros [= <-]; simpl; lia);
    unfold on_RBRACKET, on_RPAREN, on_closer;
    destruct (pop (_nesting t)) as [[top rest]|]; try discriminate;
    destruct (match value top with Some _ => _ | None => _ end);
    intros [= <-]; simpl; lia.
Qed.

Lemma token_callback_position r token t t' :
  token_callback r token t = inr t' ->
  _index t' = _index t /\ _taboffset t' = _taboffset t.
Proof.
  destruct r; simpl; try (intros [= <-]; simpl; now split);
    unfold on_RBRACKET, on_RPAREN, on_closer;
    destruct (pop (_nesting t)) as [[top rest]|]; try discriminate;
    destruct (match value top with Some _ => _ | None => _ end);
    intros [= <-]; simpl; now split.
Qed.

Section Positions.

Variable matcher : string -> nat -> option (rule * nat).



Lemma scan_line_linenos line fuel :
  forall t tokens e t',
    scan_line matcher fuel line t = (tokens, e, t') ->
    _lineno t <= _lineno t' /\
    Forall (fun token => _lineno t <= lineno token <= _lineno t') tokens /\
    StronglySorted lineno_le tokens.
Proof.
  induction fuel as [|fuel IH]; intros t tokens e t'; cbn [scan_line].
  - destruct (Nat.ltb _ _); intros [= <- <- <-]; repeat split; constructor.
  - destruct (Nat.ltb _ _); [|intros [= <- <- <-]; repeat split; constructor].
    destruct (String.get _ _) as [c|]; [|intros [= <- <- <-]; repeat split; constructor].
    destruct (char_in c _IGNORE); [intros H; apply IH in H; exact H|].
    destruct (matcher line (_index t)) as [[r e0]|];
      [|intros [= <- <- <-]; repeat split; constructor].
    destruct (token_callback _ _ _) as [x|t1] eqn:Ec;
      [intros [= <- <- <-]; repeat split; constructor|].
    apply token_callback_lineno in Ec. cbn [_lineno set_position] in Ec.
    destruct (Nat.leb e0 (_index t)).
    + intros [= <- <- <-]. split; [exact Ec|]. split.
      * constructor; [cbn [lineno]; lia|constructor].
      * constructor; constructor.
    + destruct (scan_line matcher fuel line _) as [[tokens1 e1] t2] eqn:E.
      intros [= <- <- <-]. apply IH in E. cbn [_lineno set_position] in E.
      destruct E as (H0 & H1 & H2). split; [lia|]. split.
      * constructor; [cbn [lineno]; lia|].
        eapply Forall_impl; [|exact H1]. cbn beta. intros; unfold _TAB_SIZE in *; lia.
      * constructor; [exact H2|].
        eapply Forall_impl; [|exact H1]. unfold lineno_le. cbn [lineno]. intros; unfold _TAB_SIZE in *; lia.
Qed.

Lemma read_loop_linenos lines :
  forall line t tokens e,
    read_loop matcher lines line t = (tokens, e) ->
    Forall (fun token => _lineno t <= lineno token) tokens /\
    StronglySorted lineno_le tokens.
Proof.
  induction lines as [|l lines IH]; intros line t tokens e; cbn [read_loop].
  - unfold finish. destruct (raise_unclosed t); [intros [= <- <-]; split; constructor|].
    destruct (lacks_terminator line); intros [= <- <-]; split;
      repeat (constructor; try (unfold lineno_le; cbn [lineno]; lia)).
  - destruct (scan_line matcher _ l _) as [[tokens1 e1] t1] eqn:E.
    apply scan_line_linenos in E. cbn [_lineno set_position add_line] in E.
    destruct E as (H0 & H1 & H2).
    assert (H1' : Forall (fun token => _lineno t <= lineno token) tokens1)
      by (eapply Forall_impl; [|exact H1]; cbn beta; intros; unfold _TAB_SIZE in *; lia).
    destruct e1 as [e1|]; [intros [= <- <-]; now split|].
    destruct (read_loop matcher lines l t1) as [tokens2 e2] eqn:E2.
    intros [= <- <-]. apply IH in E2. destruct E2 as [H3 H4]. split.
    + apply Forall_app. split; [exact H1'|].
      eapply Forall_impl; [|exact H3]. cbn beta. intros; unfold _TAB_SIZE in *; lia.
    + apply strongly_sorted_app; [exact H2|exact H4|].
      intros a b Ha Hb. rewrite Forall_forall in H1, H3.
      specialize (H1 a Ha). specialize (H3 b Hb). unfold lineno_le. lia.
Qed.

(** X5. Whatever the text and however the generator ends, the line numbers
    of the tokens it yields start from 1 and never decrease along the
    stream. *)
Theorem line_numbers_never_decrease f :
  Forall (fun token => 1 <= lineno token) (fst (tokenize_file matcher f)) /\
  StronglySorted lineno_le (fst (tokenize_file matcher f)).
Proof.
  unfold tokenize_file. destruct (name f) as [filename|]; [|split; constructor].
  destruct (read_loop matcher _ _ _) as [tokens e] eqn:E.
  apply read_loop_linenos in E. exact E.
Qed.

End Positions.

(** ** The width and the text of a token *)

Lemma length_substring s : forall i n,
  i + n <= String.length s -> String.length (substring i n s) = n.
Proof.
  induction s as [|c s IH]; intros i n; simpl.
  - destruct i, n; simpl; lia.
  - destruct i as [|i]; [destruct n as [|n]; simpl; [reflexivity|]|].
    + intros H. f_equal. apply (IH 0 n). lia.
    + intros H. apply IH. lia.
Qed.

Lemma count_substring c s : forall i n, count c (substring i n s) <= count c s.
Proof.
  induction s as [|c' s IH]; intros i n; simpl.
  - destruct i, n; simpl; lia.
  - destruct i as [|i]; [destruct n as [|n]; simpl; [lia|]|].
    + specialize (IH 0 n). lia.
    + specialize (IH i n). lia.
Qed.

Lemma count_readlines c s : Forall (fun l => count c l <= count c s) (readlines s).
Proof.
  induction s as [|c' s IH]; simpl; [constructor|].
  destruct (Ascii.eqb c' LF).
  - constructor; [simpl; lia|]. eapply Forall_impl; [|exact IH]. cbn beta. intros; lia.
  - destruct (readlines s) as [|l ls].
    + constructor; [simpl; lia|constructor].
    + inversion IH; subst. constructor; [simpl; lia|].
      eapply Forall_impl; [|eassumption]. cbn beta. intros; lia.
Qed.

Section Width.

Variable matcher : string -> nat -> option (rule * nat).

Lemma scan_line_width (Hwithin : within_line matcher) line fuel :
  forall t tokens e t',
    scan_line matcher fuel line t = (tokens, e, t') ->
    Forall (fun token => forall v, value token = Some v ->
              stop_index token =
              start_index token + String.length v + (_TAB_SIZE - 1) * count TAB v) tokens.
Proof.
  induction fuel as [|fuel IH]; intros t tokens e t'; cbn [scan_line].
  - destruct (Nat.ltb _ _); intros [= <- <- <-]; constructor.
  - destruct (Nat.ltb _ _); [|intros [= <- <- <-]; constructor].
    destruct (String.get _ _) as [c|]; [|intros [= <- <- <-]; constructor].
    destruct (char_in c _IGNORE); [apply IH|].
    destruct (matcher line (_index t)) as [[r e0]|] eqn:Em; [|intros [= <- <- <-]; constructor].
    apply Hwithin in Em.
    assert (Hw : forall v, Some (substring (_index t) (e0 - _index t) line) = Some v ->
                 e0 + (_taboffset t + (_TAB_SIZE - 1) *
                       count TAB (substring (_index t) (e0 - _index t) line)) + 1 =
                 _index t + _taboffset t + 1 + String.length v +
                 (_TAB_SIZE - 1) * count TAB v).
    { intros v [= <-]. rewrite length_substring by lia. unfold _TAB_SIZE. lia. }
    destruct (token_callback _ _ _) as [x|t1]; [intros [= <- <- <-]; constructor|].
    destruct (Nat.leb e0 (_index t)).
    + intros [= <- <- <-]. constructor; [exact Hw|constructor].
    + destruct (scan_line matcher fuel line _) as [[tokens1 e1] t2] eqn:E.
      intros [= <- <- <-]. constructor; [exact Hw|]. apply IH in E. exact E.
Qed.

(** X6. When every match lies within its line and is not empty, a token
    built from a match is as wide as its text is long, plus three columns
    for each tab inside the text: [stop_index] is [start_index] plus the
    length of [value] plus [(_TAB_SIZE - 1)] times the tabs of [value]. *)
Theorem token_width (Hwithin : within_line matcher) f token v :
  In token (fst (tokenize_file matcher f)) ->
  value token = Some v ->
  stop_index token =
    start_index token + String.length v + (_TAB_SIZE - 1) * count TAB v.
Proof.
  unfold tokenize_file. destruct (name f) as [filename|]; [|intros []].
  generalize (readlines (contents f)) as lines, EmptyString as line.
  generalize {| done := false; script := []; _filename := filename; _nesting := [];
                _lineno := 1; _index := 0; _taboffset := 0 |} as t.
  intros t lines. revert t.
  induction lines as [|l lines IH]; intros t line; cbn [read_loop].
  - unfold finish. destruct (raise_unclosed t); [intros []|].
    destruct (lacks_terminator line); cbn [fst In]; intros H Hv;
      repeat (destruct H as [<-|H]; [discriminate Hv|]); destruct H.
  - destruct (scan_line matcher _ l _) as [[tokens1 e1] t1] eqn:E.
    apply (scan_line_width Hwithin) in E. rewrite Forall_forall in E.
    destruct e1 as [e1|]; [cbn [fst]; intros H; now apply E|].
    specialize (IH t1 l). destruct (read_loop matcher lines l t1) as [tokens2 e2].
    cbn [fst] in *. intros H. apply in_app_or in H. destruct H as [H|H]; [now apply E|].
    now apply IH.
Qed.

Lemma scan_line_text line (Hline : count TAB line = 0) fuel :
  forall t tokens e t',
    _taboffset t = 0 ->
    scan_line matcher fuel line t = (tokens, e, t') ->
    Forall (fun token => forall v, value token = Some v ->
              v = substring (start_index token - 1)
                            (stop_index token - start_index token) line) tokens.
Proof.
  induction fuel as [|fuel IH]; intros t tokens e t' Ht; cbn [scan_line].
  - destruct (Nat.ltb _ _); intros [= <- <- <-]; constructor.
  - destruct (Nat.ltb _ _); [|intros [= <- <- <-]; constructor].
    destruct (String.get _ _) as [c|]; [|intros [= <- <- <-]; constructor].
    destruct (char_in c _IGNORE); [apply IH; exact Ht|].
    destruct (matcher line (_index t)) as [[r e0]|] eqn:Em; [|intros [= <- <- <-]; constructor].
    assert (Hc : count TAB (substring (_index t) (e0 - _index t) line) = 0)
      by (pose proof (count_substring TAB line (_index t) (e0 - _index t)); lia).
    rewrite Ht, Hc.
    assert (Hw : forall v, Some (substring (_index t) (e0 - _index t) line) = Some v ->
                 v = substring (_index t + 0 + 1 - 1)
                               (e0 + (0 + (_TAB_SIZE - 1) * 0) + 1 - (_index t + 0 + 1)) line).
    { intros v [= <-]. f_equal; unfold _TAB_SIZE; lia. }
    destruct (token_callback _ _ _) as [x|t1] eqn:Ec; [intros [= <- <- <-]; constructor|].
    apply token_callback_position in Ec. cbn [_index _taboffset set_position] in Ec.
    destruct (Nat.leb e0 (_index t)).
    + intros [= <- <- <-]. constructor; [exact Hw|constructor].
    + destruct (scan_line matcher fuel line _) as [[tokens1 e1] t2] eqn:E.
      intros [= <- <- <-]. constructor; [exact Hw|]. apply IH in E; [exact E|].
      cbn [_taboffset set_position]. unfold _TAB_SIZE. lia.
Qed.

(** X7. In a text without tabs the columns of a token give back its text:
    the [value] of a token built from a match is the slice of one of the
    lines of the text from the column [start_index] to the column before
    [stop_index], whatever the rules are. *)
Theorem token_text_is_the_slice_between_its_columns f token v :
  count TAB (contents f) = 0 ->
  In token (fst (tokenize_file matcher f)) ->
  value token = Some v ->
  exists line,
    In line (readlines (contents f)) /\
    v = substring (start_index token - 1) (stop_index token - start_index token) line.
Proof.
  intros Htab. unfold tokenize_file. destruct (name f) as [filename|]; [|intros []].
  assert (Hlines : Forall (fun l => count TAB l = 0) (readlines (contents f))).
  { eapply Forall_impl; [|apply (count_readlines TAB)]. cbn beta. intros; lia. }
  revert Hlines.
  generalize (readlines (contents f)) as lines, EmptyString as line.
  generalize {| done := false; script := []; _filename := filename; _nesting := [];
                _lineno := 1; _index := 0; _taboffset := 0 |} as t.
  intros t lines. revert t.
  induction lines as [|l lines IH]; intros t line Hlines; cbn [read_loop].
  - unfold finish. destruct (raise_unclosed t); [intros []|].
    destruct (lacks_terminator line); cbn [fst In]; intros H Hv;
      repeat (destruct H as [<-|H]; [discriminate Hv|]); destruct H.
  - inversion Hlines as [|? ? Hl Hrest]; subst.
    destruct (scan_line matcher _ l _) as [[tokens1 e1] t1] eqn:E.
    apply (@scan_line_text l Hl) in E; [|reflexivity]. rewrite Forall_forall in E.
    assert (Hhere : In token tokens1 -> value token = Some v ->
                    exists line0, In line0 (l :: lines) /\
                      v = substring (start_index token - 1)
                                    (stop_index token - start_index token) line0).
    { intros H Hv. exists l. split; [now left|now apply E]. }
    destruct e1 as [e1|]; [cbn [fst]; exact Hhere|].
    specialize (IH t1 l Hrest). destruct (read_loop matcher lines l t1) as [tokens2 e2].
    cbn [fst] in *. intros H Hv. apply in_app_or in H. destruct H as [H|H]; [now apply Hhere|].
    destruct (IH H Hv) as (line0 & Hin & Hs). exists line0. split; [now right|exact Hs].
Qed.

End Width.

(** *** The token rules of the examples match within the line *)

Lemma length_drop s : forall n, String.length (drop n s) = String.length s - n.
Proof.
  induction s as [|c s IH]; intros [|n]; simpl; try reflexivity. apply IH.
Qed.

Lemma prefix_length p : forall s, String.prefix p s = true -> String.length p <= String.length s.
Proof.
  induction p as [|c p IH]; intros s; [simpl; lia|].
  destruct s as [|c' s]; simpl; [discriminate|].
  destruct (Ascii.ascii_dec c c'); [|discriminate].
  intros H. apply IH in H. lia.
Qed.

Lemma fraction_le r :
  match r with
  | String "." r' => match span is_digit r' with 0 => 0 | n => S n end
  | _ => 0
  end <= String.length r.
Proof.
  destruct r as [|c r]; [simpl; lia|].
  destruct (Ascii.ascii_dec c "."%char) as [->|Hc].
  - pose proof (span_le is_digit r). destruct (span is_digit r); simpl; lia.
  - destruct c as [[] [] [] [] [] [] [] []]; simpl; try lia. congruence.
Qed.

Lemma number_length_le s : number_length s <= String.length s.
Proof.
  unfold number_length.
  destruct (String.prefix "inf" s) eqn:Ep; [apply prefix_length in Ep; exact Ep|].
  destruct s as [|c r]; [simpl; lia|].
  destruct (Ascii.ascii_dec c "0"%char) as [->|Hc].
  - pose proof (fraction_le r). cbn [String.length]. lia.
  - assert (H : (if is_digit c
                 then (1 + span is_digit r) +
                      match drop (1 + span is_digit r) (String c r) with
                      | String "." r' => match span is_digit r' with 0 => 0 | n => S n end
                      | _ => 0
                      end
                 else match String c r with
                      | String "." r' => match span is_digit r' with 0 => 0 | n => S n end
                      | _ => 0
                      end) <= String.length (String c r)).
    { destruct (is_digit c).
      - pose proof (fraction_le (drop (1 + span is_digit r) (String c r))) as H.
        rewrite length_drop in H. pose proof (span_le is_digit r).
        cbn [String.length] in *. lia.
      - exact (fraction_le (String c r)). }
    destruct c as [[] [] [] [] [] [] [] []]; try exact H. congruence.
Qed.

Lemma string_length_le s : string_length s <= String.length s.
Proof.
  unfold string_length. destruct s as [|q r]; [simpl; lia|].
  destruct (_ || _); [|lia].
  set (n := span _ r).
  pose proof (length_drop r n) as H. destruct (drop n r); simpl in *; lia.
Qed.

Lemma literal_le s r n : literal s = Some (r, n) -> n <= String.length s.
Proof.
  unfold literal.
  destruct (String.prefix "**" s) eqn:E1; [apply prefix_length in E1; intros [= <- <-]; exact E1|].
  destruct (String.prefix "//" s) eqn:E2; [apply prefix_length in E2; intros [= <- <-]; exact E2|].
  destruct s as [|c s]; [discriminate|].
  destruct c as [[] [] [] [] [] [] [] []]; try discriminate; intros [= <- <-]; simpl; lia.
Qed.

Lemma token_rules_le s r n : token_rules s = Some (r, n) -> n <= String.length s.
Proof.
  unfold token_rules. destruct s as [|c s]; [discriminate|].
  destruct (Ascii.eqb c LF);
    [intros [= <- <-]; pose proof (span_le (Ascii.eqb LF) s); simpl; lia|].
  destruct (Ascii.eqb c "#");
    [intros [= <- <-];
     pose proof (span_le (fun c => negb (Ascii.eqb c LF)) s); simpl; lia|].
  pose proof (number_length_le (String c s)) as Hn.
  destruct (number_length _); [|intros [= <- <-]; exact Hn].
  pose proof (string_length_le (String c s)) as Hs.
  destruct (string_length _); [|intros [= <- <-]; exact Hs].
  destruct (is_name_start c);
    [intros [= <- <-]; pose proof (span_le is_name_char s); simpl; lia|].
  apply literal_le.
Qed.

Lemma optocad_matcher_within_line : within_line optocad_matcher.
Proof.
  intros line index r e. unfold optocad_matcher.
  destruct (token_rules _) as [[r' n]|] eqn:E; [|discriminate].
  pose proof (token_rules_progress _ E). apply token_rules_le in E.
  rewrite length_drop in E. intros [= <- <-]. lia.
Qed.

Lemma token_width_witness :
  within_line optocad_matcher /\
  In (mkToken 1 4 15 COMMENT (Some (String "#" (String TAB (String "x" (String TAB "y"))))))
     (fst (tokenize_file optocad_matcher
             (text_file "script.ocd" (String "m" (String "1" (String TAB
                (String "#" (String TAB (String "x" (String TAB "y")))))))))) /\
  15 = 4 + 5 + (_TAB_SIZE - 1) * 2.
Proof.
  split; [exact optocad_matcher_within_line|].
  assert (H : In (mkToken 1 4 15 COMMENT
                    (Some (String "#" (String TAB (String "x" (String TAB "y"))))))
                 (fst (tokenize_file optocad_matcher
                         (text_file "script.ocd" (String "m" (String "1" (String TAB
                            (String "#" (String TAB (String "x" (String TAB "y"))))))))))).
  { vm_compute. right. left. reflexivity. }
  split; [exact H|].
  exact (@token_width optocad_matcher optocad_matcher_within_line _ _ _ H eq_refl).
Defined.

Lemma token_text_is_the_slice_between_its_columns_witness :
  count TAB "m1  crv" = 0 /\
  In (mkToken 1 5 8 NAME (Some "crv"))
     (fst (tokenize_file optocad_matcher (text_file "script.ocd" "m1  crv"))) /\
  exists line,
    In line (readlines "m1  crv") /\ "crv" = substring (5 - 1) (8 - 5) line.
Proof.
  split; [reflexivity|].
  assert (H : In (mkToken 1 5 8 NAME (Some "crv"))
                 (fst (tokenize_file optocad_matcher (text_file "script.ocd" "m1  crv")))).
  { vm_compute. right. left. reflexivity. }
  split; [exact H|].
  exact (@token_text_is_the_slice_between_its_columns optocad_matcher
           (text_file "script.ocd" "m1  crv") _ _ eq_refl H eq_refl).
Defined.

(** ** No closer without its opener *)

Lemma count_tokens_cons p token tokens :
  count_tokens p (token :: tokens) = (if p token then 1 else 0) + count_tokens p tokens.
Proof. unfold count_tokens. simpl. destruct (p token); reflexivity. Qed.

Section Prefixes.

Variable matcher : string -> nat -> option (rule * nat).

Lemma scan_line_prefix line fuel :
  forall t tokens e t' n,
    scan_line matcher fuel line t = (tokens, e, t') ->
    count_tokens is_closer (firstn n tokens) <=
    count_tokens is_opener (firstn n tokens) + List.length (_nesting t).
Proof.
  induction fuel as [|fuel IH]; intros t tokens e t' n; cbn [scan_line].
  - destruct (Nat.ltb _ _); intros [= <- <- <-]; rewrite firstn_nil; cbn; lia.
  - destruct (Nat.ltb _ _); [|intros [= <- <- <-]; rewrite firstn_nil; cbn; lia].
    destruct (String.get _ _) as [c|]; [|intros [= <- <- <-]; rewrite firstn_nil; cbn; lia].
    destruct (char_in c _IGNORE); [intros H; apply (IH _ _ _ _ n) in H; exact H|].
    destruct (matcher line (_index t)) as [[r e0]|];
      [|intros [= <- <- <-]; rewrite firstn_nil; cbn; lia].
    destruct (token_callback _ _ _) as [x|t1] eqn:Ec;
      [intros [= <- <- <-]; rewrite firstn_nil; cbn; lia|].
    apply token_callback_depth in Ec; [|reflexivity]. cbn [_nesting set_position] in Ec.
    destruct (Nat.leb e0 (_index t)).
    + intros [= <- <- <-]. destruct n as [|n]; [cbn; lia|].
      cbn [firstn]. rewrite firstn_nil, !count_tokens_cons. cbn [count_tokens filter List.length].
      destruct (is_opener _), (is_closer _); lia.
    + destruct (scan_line matcher fuel line _) as [[tokens1 e1] t2] eqn:E.
      intros [= <- <- <-]. destruct n as [|n]; [cbn; lia|].
      cbn [firstn]. rewrite !count_tokens_cons.
      apply (IH _ _ _ _ n) in E. cbn [_nesting set_position] in E.
      destruct (is_opener _), (is_closer _); lia.
Qed.

Lemma read_loop_prefix lines :
  forall line t tokens e n,
    read_loop matcher lines line t = (tokens, e) ->
    count_tokens is_closer (firstn n tokens) <=
    count_tokens is_opener (firstn n tokens) + List.length (_nesting t).
Proof.
  induction lines as [|l lines IH]; intros line t tokens e n; cbn [read_loop].
  - unfold finish. destruct (raise_unclosed t);
      [intros [= <- <-]; rewrite firstn_nil; cbn; lia|].
    destruct (lacks_terminator line); intros [= <- <-];
      destruct n as [|[|[|n]]]; cbn; lia.
  - destruct (scan_line matcher _ l _) as [[tokens1 e1] t1] eqn:E.
    pose proof (scan_line_prefix _ _ _ n E) as Hp.
    apply scan_line_depth in E. cbn [_nesting set_position add_line] in *.
    destruct e1 as [e1|]; [intros [= <- <-]; exact Hp|].
    destruct (read_loop matcher lines l t1) as [tokens2 e2] eqn:E2.
    intros [= <- <-]. apply (IH _ _ _ _ (n - List.length tokens1)) in E2.
    rewrite firstn_app, !count_tokens_app.
    destruct (Nat.le_gt_cases (List.length tokens1) n) as [Hn|Hn].
    + rewrite firstn_all2 in * by exact Hn. lia.
    + replace (n - List.length tokens1) with 0 in * by lia. cbn in *. lia.
Qed.

(** X8. At every point of the token stream, however it ends, the closing
    brackets and parentheses yielded so far are no more than the opening
    ones: a closer that has no opener is never yielded. *)
Theorem no_closer_without_opener f n :
  count_tokens is_closer (firstn n (fst (tokenize_file matcher f))) <=
  count_tokens is_opener (firstn n (fst (tokenize_file matcher f))).
Proof.
  unfold tokenize_file. destruct (name f) as [filename|]; [|rewrite firstn_nil; cbn; lia].
  destruct (read_loop matcher _ _ _) as [tokens e] eqn:E.
  apply (read_loop_prefix _ _ _ n) in E. cbn [fst _nesting List.length] in *. lia.
Qed.

End Prefixes.

Open Scope list_scope.

(** ** Line numbers and the NEWLINE tokens *)

Lemma numbered_from_app l a b :
  numbered_from l (a ++ b) <->
  numbered_from l a /\ numbered_from (l + list_sum (map newlines_of a)) b.
Proof.
  revert l. induction a as [|x a IH]; intros l; cbn [app numbered_from map list_sum].
  - rewrite Nat.add_0_r. tauto.
  - rewrite IH, <- Nat.add_assoc. tauto.
Qed.

Lemma token_callback_newlines r l s e v t t' :
  token_callback r (mkToken l s e r (Some v)) t = inr t' ->
  _lineno t' = _lineno t + newlines_of (mkToken l s e r (Some v)).
Proof.
  destruct r; cbn; try (intros [= <-]; cbn; lia);
    unfold on_RBRACKET, on_RPAREN, on_closer;
    destruct (pop (_nesting t)) as [[top rest]|]; try discriminate;
    destruct (match value top with Some _ => _ | None => _ end);
    intros [= <-]; cbn; lia.
Qed.

Section Newlines.

Variable matcher : string -> nat -> option (rule * nat).

Lemma scan_line_numbered line fuel :
  forall t tokens e t',
    scan_line matcher fuel line t = (tokens, e, t') ->
    numbered_from (_lineno t) tokens /\
    _lineno t' = _lineno t + list_sum (map newlines_of tokens).
Proof.
  induction fuel as [|fuel IH]; intros t tokens e t'; cbn [scan_line].
  - destruct (Nat.ltb _ _); intros [= <- <- <-]; cbn; split; (exact I || lia).
  - destruct (Nat.ltb _ _); [|intros [= <- <- <-]; cbn; split; (exact I || lia)].
    destruct (String.get _ _) as [c|]; [|intros [= <- <- <-]; cbn; split; (exact I || lia)].
    destruct (char_in c _IGNORE); [intros H; apply IH in H; exact H|].
    destruct (matcher line (_index t)) as [[r e0]|];
      [|intros [= <- <- <-]; cbn; split; (exact I || lia)].
    destruct (token_callback _ _ _) as [x|t1] eqn:Ec;
      [intros [= <- <- <-]; cbn; split; (exact I || lia)|].
    apply token_callback_newlines in Ec. cbn [_lineno set_position] in Ec.
    destruct (Nat.leb e0 (_index t)).
    + intros [= <- <- <-]. cbn [numbered_from map lineno]. split; [tauto|].
      rewrite Ec. exact (f_equal _ (eq_sym (Nat.add_0_r _))).
    + destruct (scan_line matcher fuel line _) as [[tokens1 e1] t2] eqn:E.
      intros [= <- <- <-]. apply IH in E. cbn [_lineno set_position] in E.
      destruct E as [H1 H2]. cbn [numbered_from map lineno].
      split; [split; [reflexivity|rewrite Ec in H1; exact H1]|].
      rewrite H2, Ec. exact (eq_sym (Nat.add_assoc _ _ _)).
Qed.

Lemma read_loop_numbered lines :
  forall line t tokens e,
    read_loop matcher lines line t = (tokens, e) ->
    numbered_from (_lineno t) tokens.
Proof.
  induction lines as [|l lines IH]; intros line t tokens e; cbn [read_loop].
  - unfold finish. destruct (raise_unclosed t); [intros [= <- <-]; exact I|].
    destruct (lacks_terminator line); intros [= <- <-]; cbn; tauto.
  - destruct (scan_line matcher _ l _) as [[tokens1 e1] t1] eqn:E.
    apply scan_line_numbered in E. cbn [_lineno set_position add_line] in E.
    destruct E as [H1 H2].
    destruct e1 as [e1|]; [intros [= <- <-]; exact H1|].
    destruct (read_loop matcher lines l t1) as [tokens2 e2] eqn:E2.
    intros [= <- <-]. apply IH in E2. apply numbered_from_app. split; [exact H1|].
    now rewrite <- H2.
Qed.

(** X15. The line number of a token counts the NEWLINE tokens before it, not
    the lines read: it is 1 plus, for each NEWLINE token yielded before, the
    length of its text (1 for the implicit NEWLINE), however the stream
    ends. *)
Theorem lineno_counts_newlines f before token after :
  fst (tokenize_file matcher f) = before ++ token :: after ->
  lineno token = 1 + list_sum (map newlines_of before).
Proof.
  unfold tokenize_file. destruct (name f) as [filename|]; [|now destruct before].
  destruct (read_loop matcher _ _ _) as [tokens e] eqn:E. cbn [fst]. intros ->.
  apply read_loop_numbered in E. apply numbered_from_app in E. cbn [_lineno] in E.
  destruct E as [_ [E _]]. exact E.
Qed.

(** *** The ENDMARKER and the end of the stream *)

Lemma matched_no_endmarker tokens :
  Forall matched_token tokens -> no_endmarker tokens.
Proof.
  intros H. eapply Forall_impl; [|exact H]. intros t (r & text & Ht & _). congruence.
Qed.

Lemma read_loop_endmarker lines :
  forall line t tokens e,
    read_loop matcher lines line t = (tokens, e) ->
    e <> Done -> no_endmarker tokens.
Proof.
  induction lines as [|l lines IH]; intros line t tokens e; cbn [read_loop].
  - unfold finish. destruct (raise_unclosed t); [intros [= <- <-] _; constructor|].
    destruct (lacks_terminator line); intros [= <- <-]; congruence.
  - destruct (scan_line matcher _ l _) as [[tokens1 e1] t1] eqn:E.
    apply scan_line_tokens in E. destruct E as [Hm _].
    apply matched_no_endmarker in Hm.
    destruct e1 as [e1|]; [intros [= <- <-] _; exact Hm|].
    destruct (read_loop matcher lines l t1) as [tokens2 e2] eqn:E2.
    intros [= <- <-] He. apply Forall_app. split; [exact Hm|]. eapply IH; eassumption.
Qed.

Lemma tokenize_file_endmarker f :
  snd (tokenize_file matcher f) <> Done -> no_endmarker (fst (tokenize_file matcher f)).
Proof.
  unfold tokenize_file. destruct (name f) as [filename|]; [|constructor].
  destruct (read_loop matcher _ _ _) as [tokens e] eqn:E. cbn [fst snd].
  eapply read_loop_endmarker, E.
Qed.

(** X16. A stream that ends in an error holds no ENDMARKER: whatever the
    text, when the generator does not end normally, none of the tokens it
    has yielded is the ENDMARKER. *)
Theorem error_stream_has_no_endmarker f token :
  snd (tokenize_file matcher f) <> Done ->
  In token (fst (tokenize_file matcher f)) ->
  type token <> ENDMARKER.
Proof.
  intros H. apply tokenize_file_endmarker in H. unfold no_endmarker in H.
  rewrite Forall_forall in H. apply H.
Qed.

End Newlines.

Open Scope string_scope.

Lemma lineno_counts_newlines_witness :
  fst (tokenize_file optocad_matcher (text_file "script.ocd" ("m1" ++ nl ++ nl ++ "m2"))) =
    ([mkToken 1 1 3 NAME (Some "m1"); mkToken 1 3 4 NEWLINE (Some nl);
      mkToken 2 1 2 NEWLINE (Some nl); mkToken 3 1 3 NAME (Some "m2");
      mkToken 3 3 3 NEWLINE None] ++
     mkToken 4 1 1 ENDMARKER None :: [])%list /\
  lineno (mkToken 4 1 1 ENDMARKER None) = 1 + 3.
Proof.
  split; [reflexivity|].
  apply (@lineno_counts_newlines optocad_matcher
           (text_file "script.ocd" ("m1" ++ nl ++ nl ++ "m2"))
           [mkToken 1 1 3 NAME (Some "m1"); mkToken 1 3 4 NEWLINE (Some nl);
            mkToken 2 1 2 NEWLINE (Some nl); mkToken 3 1 3 NAME (Some "m2");
            mkToken 3 3 3 NEWLINE None]
           (mkToken 4 1 1 ENDMARKER None) []).
  reflexivity.
Defined.

Lemma error_stream_has_no_endmarker_witness :
  snd (tokenize_file optocad_matcher (text_file "script.ocd" ("m1 (" ++ nl))) <> Done /\
  In (mkToken 1 4 5 LPAREN (Some "("))
     (fst (tokenize_file optocad_matcher (text_file "script.ocd" ("m1 (" ++ nl)))) /\
  type (mkToken 1 4 5 LPAREN (Some "(")) <> ENDMARKER.
Proof.
  assert (H1 : snd (tokenize_file optocad_matcher (text_file "script.ocd" ("m1 (" ++ nl)))
               <> Done) by (vm_compute; discriminate).
  assert (H2 : In (mkToken 1 4 5 LPAREN (Some "("))
                  (fst (tokenize_file optocad_matcher
                          (text_file "script.ocd" ("m1 (" ++ nl)))))
    by (vm_compute; right; left; reflexivity).
  split; [exact H1|]. split; [exact H2|].
  exact (@error_stream_has_no_endmarker optocad_matcher _ _ H1 H2).
Defined.

Open Scope list_scope.

(** ** The invariant of the parser *)

Lemma extends_refl s : extends s s.
Proof.
  split; [reflexivity|]. split; [reflexivity|]. exists []. now rewrite app_nil_r.
Qed.

Lemma extends_trans s1 s2 s3 : extends s1 s2 -> extends s2 s3 -> extends s1 s3.
Proof.
  intros (Hf & He & p & Ht & Hs) (Hf' & He' & p' & Ht' & Hs').
  split; [congruence|]. split; [congruence|]. exists (p ++ p').
  rewrite Ht', Ht, Hs, Hs', !app_assoc. now split.
Qed.

Lemma mark_ok_app q ts more : mark_ok q ts -> mark_ok q (ts ++ more).
Proof.
  intros [H1 H2]. split; [rewrite length_app; lia|].
  rewrite firstn_app. replace (q - List.length ts) with 0 by lia.
  cbn [firstn]. now rewrite app_nil_r.
Qed.

Lemma mark_ok_extends q s s' : extends s s' -> mark_ok q (tokens s) -> mark_ok q (tokens s').
Proof. intros (_ & _ & p & -> & _). apply mark_ok_app. Qed.

Lemma entry_ok_app ts more m : entry_ok ts m -> entry_ok (ts ++ more) m.
Proof.
  destruct m as [[p key] [res endpos]]. intros (H1 & H2 & H3).
  repeat split; try assumption; now apply mark_ok_app.
Qed.

Lemma inv_extends q s s' : extends s s' -> good s' -> mark_ok q (tokens s) -> inv q s'.
Proof. intros He Hg Hm. split; [exact Hg|]. eapply mark_ok_extends; eassumption. Qed.

(** *** The rules of the triples *)

Lemma hoare_ret {A} (P : OptocadParser -> Prop) (a : A) (Q : A -> OptocadParser -> Prop) :
  (forall s, P s -> Q a s) -> hoare P (ret a) Q.
Proof. intros H s Hs. cbn. split; [apply extends_refl|now apply H]. Qed.

Lemma hoare_raise {A} (P : OptocadParser -> Prop) e (Q : A -> OptocadParser -> Prop) :
  (forall s, P s -> allowed (parser_filename s) e) -> hoare P (raise e) Q.
Proof. intros H s Hs. cbn. now apply H. Qed.

Lemma hoare_bind {A B} (P : OptocadParser -> Prop) (m : M A) (k : A -> M B) Q1 Q2 :
  hoare P m Q1 -> (forall a, hoare (Q1 a) (k a) Q2) -> hoare P (bind m k) Q2.
Proof.
  intros Hm Hk s Hs. unfold bind. specialize (Hm s Hs).
  destruct (m s) as [[a|e|] s1]; [|exact Hm|exact I].
  destruct Hm as [He Hq]. specialize (Hk a s1 Hq).
  destruct (k a s1) as [[b|e|] s2]; [|destruct He as [<- _]; exact Hk|exact I].
  destruct Hk as [He' Hq']. split; [eapply extends_trans; eassumption|exact Hq'].
Qed.

Lemma hoare_weaken {A} (P P' : OptocadParser -> Prop) (m : M A)
      (Q Q' : A -> OptocadParser -> Prop) :
  hoare P m Q -> (forall s, P' s -> P s) -> (forall a s, Q a s -> Q' a s) -> hoare P' m Q'.
Proof.
  intros H HP HQ s Hs. specialize (H s (HP s Hs)).
  destruct (m s) as [[a|e|] s1]; [|exact H|exact I].
  destruct H as [He Hq]. split; [exact He|now apply HQ].
Qed.

(** A mark that is good before the computation is good after it. *)
Lemma hoare_frame {A} q (P : OptocadParser -> Prop) (m : M A) (Q : A -> OptocadParser -> Prop) :
  hoare P m Q ->
  hoare (fun s => P s /\ mark_ok q (tokens s)) m (fun a s => Q a s /\ mark_ok q (tokens s)).
Proof.
  intros H s [Hs Hq]. specialize (H s Hs).
  destruct (m s) as [[a|e|] s1]; [|exact H|exact I].
  destruct H as [He HQ]. split; [exact He|]. split; [exact HQ|].
  eapply mark_ok_extends; eassumption.
Qed.

(** A triple for every start position is a triple for any. *)
Lemma hoare_any_pos {A} (P : OptocadParser -> Prop) (m : M A)
      (Q : nat -> A -> OptocadParser -> Prop) (Q' : A -> OptocadParser -> Prop) :
  (forall q, hoare (fun s => P s /\ pos s = q) m (Q q)) ->
  (forall q a s, Q q a s -> Q' a s) ->
  hoare P m Q'.
Proof.
  intros H HQ s Hs. specialize (H (pos s) s (conj Hs eq_refl)).
  destruct (m s) as [[a|e|] s1]; [|exact H|exact I].
  destruct H as [He Hq]. split; [exact He|]. eapply HQ, Hq.
Qed.

(** *** The primitives *)

Lemma good_set_pos q s : inv q s -> good (set_pos q s).
Proof.
  intros [(H1 & H2 & H3 & H4) Hq]. repeat split; try assumption; apply Hq.
Qed.

Lemma hoare_mark_reset q :
  hoare (inv q) (reset q) (fun _ s => inv q s /\ pos s = q).
Proof.
  intros s Hs. cbn. split.
  - split; [reflexivity|]. split; [reflexivity|]. exists []. now rewrite app_nil_r.
  - split; [|reflexivity]. split; [now apply good_set_pos|apply Hs].
Qed.

Lemma good_memo_put p key entry s :
  good s -> entry_ok (tokens s) (p, key, entry) ->
  good (set_memos ((p, key, entry) :: memos s) s).
Proof.
  intros (H1 & H2 & H3 & H4) He. repeat split; try assumption; try apply H1.
  constructor; assumption.
Qed.

Lemma memo_get_ok ts p key m entry :
  Forall (entry_ok ts) m -> memo_get p key m = Some entry -> entry_ok ts (p, key, entry).
Proof.
  induction m as [|[[p' key'] entry'] m IH]; simpl; [discriminate|].
  intros H. inversion H as [|? ? Hh Ht]; subst.
  destruct (Nat.eqb_spec p p') as [->|_]; simpl; [|now apply IH].
  destruct (memo_key_eqb key key') eqn:Ek; [|now apply IH].
  intros [= <-].
  assert (key = key') as ->; [|exact Hh].
  destruct key as [a|a], key' as [b|b]; simpl in Ek; try discriminate; f_equal.
  - now apply token_type_eqb_eq.
  - destruct a, b; simpl in Ek; congruence.
Qed.

Lemma good_pull s t rest e :
  good s -> _token_stream s = (t :: rest, e) ->
  good (set_tokens (tokens s ++ [t]) (rest, e) s).
Proof.
  intros (Hp & Hm & Ht & Hs) E. unfold stream_ok in Hs. rewrite E in Ht, Hs.
  cbn [fst snd] in *. unfold good, stream_ok. cbn.
  split; [now apply mark_ok_app|].
  split; [eapply Forall_impl; [|exact Hm]; intros m; apply entry_ok_app|].
  rewrite <- !app_assoc. cbn. split; [exact Ht|exact Hs].
Qed.

(** [peek_token] leaves the cursor where it is and returns the token under
    it, which is in the buffer afterwards. *)
Lemma hoare_peek_token p :
  hoare (fun s => good s /\ pos s = p)
        peek_token
        (fun token s' => good s' /\ pos s' = p /\
                         nth_error (tokens s') p = Some token /\ has_text token).
Proof.
  intros s [Hg <-]. pose proof Hg as (Hp & Hm & Ht & Hs). unfold peek_token.
  destruct (Nat.eqb_spec (pos s) (List.length (tokens s))) as [Hlen|Hlen].
  - unfold stream_ok in Hs.
    destruct (_token_stream s) as [[|t rest] e] eqn:Estream; cbn [fst snd] in *.
    + destruct e as [|e|].
      * exfalso. rewrite app_nil_r in Hs. destruct Hp as [_ Hp].
        rewrite Hlen, firstn_all in Hp. apply Exists_exists in Hs.
        destruct Hs as (t & Hin & Hty). unfold no_endmarker in Hp.
        rewrite Forall_forall in Hp. now apply (Hp t Hin).
      * exact Hs.
      * exact I.
    + assert (En : nth_error (tokens s ++ [t]) (pos s) = Some t)
        by (rewrite Hlen, nth_error_app2, Nat.sub_diag by lia; reflexivity).
      cbn. rewrite En. split.
      * split; [reflexivity|]. split; [cbn; now rewrite Estream|].
        exists [t]. cbn. rewrite Estream. now split.
      * split; [now apply good_pull|]. split; [reflexivity|]. split; [exact En|].
        rewrite Forall_forall in Ht. apply Ht, in_or_app. right. now left.
  - destruct (nth_error (tokens s) (pos s)) as [t|] eqn:En.
    + split; [apply extends_refl|]. split; [exact Hg|]. split; [reflexivity|].
      split; [exact En|].
      rewrite Forall_forall in Ht. apply Ht, in_or_app. left.
      eapply nth_error_In, En.
    + exfalso. apply nth_error_None in En. destruct Hp. lia.
Qed.

Lemma good_set_pos_same s : good s -> set_pos (pos s) s = s.
Proof. intros _. now destruct s. Qed.

(** A lookahead leaves the cursor where it is. *)
Lemma hoare_positive_lookahead p token_type :
  hoare (fun s => good s /\ pos s = p) (positive_lookahead token_type)
        (fun _ s' => good s' /\ pos s' = p).
Proof.
  unfold positive_lookahead.
  intros s Hs. unfold bind, mark. cbn.
  pose proof (@hoare_peek_token p s Hs) as H. destruct Hs as [Hg <-].
  destruct (peek_token s) as [[t|e|] s1]; [|exact H|exact I].
  destruct H as [He (Hg1 & Hp1 & Hn & _)]. cbn.
  rewrite <- Hp1, good_set_pos_same by exact Hg1. split; [exact He|now split].
Qed.

Lemma hoare_negative_lookahead p token_type :
  hoare (fun s => good s /\ pos s = p) (negative_lookahead token_type)
        (fun _ s' => good s' /\ pos s' = p).
Proof.
  unfold negative_lookahead. eapply hoare_bind; [apply hoare_positive_lookahead|].
  intros b. now apply hoare_ret.
Qed.

Open Scope list_scope.

Lemma comp_framed {A} q (m : M A) K :
  comp m K -> hoare (inv q) m (fun a s' => inv q s' /\ K a).
Proof.
  intros H s [Hg Hq]. specialize (H s Hg).
  destruct (m s) as [[a|e|] s1]; [|exact H|exact I].
  destruct H as [He [Hg1 Hk]]. split; [exact He|]. split; [|exact Hk].
  split; [exact Hg1|]. eapply mark_ok_extends; eassumption.
Qed.

Lemma strong_comp key m : strong key m -> comp m (kind_ok key).
Proof.
  intros H s Hg. specialize (H (pos s) s (conj Hg eq_refl)).
  destruct (m s) as [[a|e|] s1]; [|exact H|exact I].
  destruct H as [He (Hg1 & Hk & _)]. split; [exact He|]. now split.
Qed.

Lemma extends_set_pos q s s' : extends s s' -> extends s (set_pos q s').
Proof. intros H. exact H. Qed.

Lemma extends_set_memos m s s' : extends s s' -> extends s (set_memos m s').
Proof. intros H. exact H. Qed.

(** *** The memoization engine *)

Lemma memo_hit key p res endpos s :
  good s -> memo_get p key (memos s) = Some (res, endpos) ->
  good (set_pos endpos s) /\ kind_ok key res /\ (res = None -> endpos = p).
Proof.
  intros Hg E. pose proof Hg as (_ & Hm & _).
  destruct (memo_get_ok _ _ Hm E) as (H1 & H2 & H3).
  split; [|now split]. apply (@good_set_pos endpos s). now split.
Qed.

Lemma memoize_strong key func : strong key func -> strong key (memoize key func).
Proof.
  intros Hf q s [Hg <-]. unfold memoize, bind, mark.
  destruct (memo_get (pos s) key (memos s)) as [[res endpos]|] eqn:E.
  - destruct (memo_hit _ _ Hg E) as (H1 & H2 & H3). cbn.
    split; [apply extends_set_pos, extends_refl|]. split; [exact H1|]. now split.
  - specialize (Hf (pos s) s (conj Hg eq_refl)).
    destruct (func s) as [[res|e|] s1]; [|exact Hf|exact I].
    destruct Hf as [He (Hg1 & Hk & Hn)]. cbn.
    split; [apply extends_set_memos, He|]. split; [|now split].
    apply good_memo_put; [exact Hg1|]. split; [apply Hg1|now split].
Qed.

Lemma grow_seed_strong key func (Hf : strong key func) fuel :
  forall p lastres lastpos,
    hoare (fun s => good s /\ mark_ok p (tokens s) /\ mark_ok lastpos (tokens s) /\
                    kind_ok key lastres /\ (lastres = None -> lastpos = p))
          (grow_seed fuel key func p lastres lastpos)
          (fun r s' => good s' /\ kind_ok key r /\ (r = None -> pos s' = p)).
Proof.
  induction fuel as [|fuel IH]; intros p lastres lastpos s (Hg & Hp & Hl & Hk & Hn);
    cbn [grow_seed]; [exact I|].
  unfold bind, reset, mark. cbn.
  assert (Hg0 : good (set_pos p s)) by (apply (@good_set_pos p s); now split).
  specialize (Hf p (set_pos p s) (conj Hg0 eq_refl)).
  destruct (func (set_pos p s)) as [[res|e|] s1]; [|exact Hf|exact I].
  destruct Hf as [He (Hg1 & Hk1 & Hn1)].
  assert (He' : extends s s1) by exact He.
  assert (Hl1 : mark_ok lastpos (tokens s1)) by (eapply mark_ok_extends; eassumption).
  assert (Hstop : extends s (set_pos lastpos s1) /\
                  good (set_pos lastpos s1) /\ kind_ok key lastres /\
                  (lastres = None -> pos (set_pos lastpos s1) = p)).
  { split; [exact He'|]. split; [apply (@good_set_pos lastpos s1); now split|].
    split; [exact Hk|exact Hn]. }
  destruct res as [r|]; [|exact Hstop].
  destruct (Nat.leb (pos s1) lastpos); [exact Hstop|].
  cbn. set (s2 := set_memos _ s1).
  assert (Hg2 : good s2).
  { apply good_memo_put; [exact Hg1|]. split; [apply Hg1|]. split; [exact Hk1|discriminate]. }
  assert (Hpre : good s2 /\ mark_ok p (tokens s2) /\ mark_ok (pos s1) (tokens s2) /\
                 kind_ok key (Some r) /\ (Some r = None -> pos s1 = p)).
  { split; [exact Hg2|]. split; [exact (mark_ok_extends He' Hp)|].
    split; [apply Hg1|]. split; [exact Hk1|discriminate]. }
  specialize (IH p (Some r) (pos s1) s2 Hpre).
  destruct (grow_seed fuel key func p (Some r) (pos s1) s2) as [[r'|e|] s3].
  - destruct IH as [He3 H3]. split; [|exact H3].
    eapply extends_trans; [exact He'|exact He3].
  - destruct He' as [Hf _]. cbn in IH. now rewrite Hf in IH.
  - exact I.
Qed.

Lemma memoize_left_rec_strong fuel key func :
  strong key func -> strong key (memoize_left_rec fuel key func).
Proof.
  intros Hf q s [Hg <-]. unfold memoize_left_rec, bind, mark.
  destruct (memo_get (pos s) key (memos s)) as [[res endpos]|] eqn:E.
  - destruct (memo_hit _ _ Hg E) as (H1 & H2 & H3). cbn.
    split; [apply extends_set_pos, extends_refl|]. split; [exact H1|]. now split.
  - cbn. set (s1 := set_memos _ s).
    assert (Hg1 : good s1).
    { apply good_memo_put; [exact Hg|]. split; [apply Hg|]. now split. }
    assert (Hpre : good s1 /\ mark_ok (pos s) (tokens s1) /\ mark_ok (pos s) (tokens s1) /\
                   kind_ok key None /\ (@None result = None -> pos s = pos s)).
    { split; [exact Hg1|]. split; [apply Hg|]. split; [apply Hg|]. now split. }
    pose proof (@grow_seed_strong key func Hf fuel (pos s) None (pos s) s1 Hpre) as H.
    destruct (grow_seed fuel key func (pos s) None (pos s) s1) as [[r|e|] s2].
    + exact H.
    + exact H.
    + exact I.
Qed.

(** *** Tokens *)

Lemma firstn_S_nth {A} (l : list A) : forall n x,
  nth_error l n = Some x -> firstn (S n) l = firstn n l ++ [x].
Proof.
  induction l as [|y l IH]; intros [|n] x; cbn [nth_error]; try discriminate.
  - now intros [= ->].
  - intros H. change (y :: firstn (S n) l = y :: firstn n l ++ [x]).
    now rewrite (IH n x H).
Qed.

Lemma mark_ok_next p ts token :
  mark_ok p ts -> nth_error ts p = Some token -> type token <> ENDMARKER ->
  mark_ok (p + 1) ts.
Proof.
  intros [H1 H2] Hn Ht. split.
  - assert (p < List.length ts) by (apply nth_error_Some; congruence). lia.
  - rewrite Nat.add_1_r, (firstn_S_nth _ _ Hn). apply Forall_app. split; [exact H2|].
    now constructor.
Qed.

(** The body of [expect_token], for a type other than ENDMARKER. *)
Lemma expect_token_body_strong arg :
  arg <> ENDMARKER ->
  strong (KToken arg)
    (token <- peek_token ;;
     if token_type_eqb (type token) arg
     then result <- get_token ;; ret (Some (RToken result))
     else ret None).
Proof.
  intros Harg q s Hs. unfold bind.
  pose proof (@hoare_peek_token q s Hs) as H.
  destruct (peek_token s) as [[token|e|] s1] eqn:Ep; [|exact H|exact I].
  destruct H as [He (Hg1 & Hp1 & Hn & Htext)].
  destruct (token_type_eqb (type token) arg) eqn:Et.
  - apply token_type_eqb_eq in Et.
    unfold get_token, bind.
    pose proof (@hoare_peek_token q s1 (conj Hg1 Hp1)) as H2.
    destruct (peek_token s1) as [[token2|e|] s2] eqn:Ep2;
      [|destruct He as [<- _]; exact H2|exact I].
    destruct H2 as [He2 (Hg2 & Hp2 & Hn2 & Htext2)]. cbn.
    split; [eapply extends_trans; [exact He|exact He2]|].
    assert (Htok : token2 = token).
    { destruct He2 as (_ & _ & pulled & Ht2 & _). rewrite Ht2 in Hn2.
      rewrite nth_error_app1 in Hn2 by (apply nth_error_Some; congruence). congruence. }
    subst token2. split; [|split; [now repeat split|discriminate]].
    apply (@good_set_pos (pos s2 + 1) s2). split; [exact Hg2|].
    rewrite Hp2. apply (mark_ok_next (token := token)).
    + rewrite <- Hp2. apply Hg2.
    + exact Hn2.
    + congruence.
  - cbn. split; [exact He|]. split; [exact Hg1|]. split; [exact I|]. intros _. exact Hp1.
Qed.

Lemma expect_token_strong arg : arg <> ENDMARKER -> strong (KToken arg) (expect_token arg).
Proof. intros H. apply memoize_strong, expect_token_body_strong, H. Qed.

(** [expect_token] of the ENDMARKER: when it fails the state is good, and
    when it succeeds the ENDMARKER is in the buffer. *)
Lemma expect_endmarker :
  hoare good (expect_token ENDMARKER)
        (fun r s' => (r = None -> good s') /\
                     (r <> None -> Exists (fun t => type t = ENDMARKER) (tokens s'))).
Proof.
  intros s Hg. unfold expect_token, memoize, bind, mark.
  destruct (memo_get (pos s) (KToken ENDMARKER) (memos s)) as [[res endpos]|] eqn:E.
  - destruct (memo_hit _ _ Hg E) as (H1 & H2 & H3). cbn.
    split; [apply extends_set_pos, extends_refl|]. split; [intros _; exact H1|].
    destruct res as [r|]; [|congruence]. exfalso. cbn in H2.
    destruct r; try contradiction. destruct H2 as (_ & _ & H2). congruence.
  - pose proof (@hoare_peek_token (pos s) s (conj Hg eq_refl)) as H.
    destruct (peek_token s) as [[token|e|] s1] eqn:Ep; [|exact H|exact I].
    destruct H as [He (Hg1 & Hp1 & Hn & Htext)].
    destruct (token_type_eqb (type token) ENDMARKER) eqn:Et.
    + unfold get_token, bind.
      pose proof (@hoare_peek_token (pos s) s1 (conj Hg1 Hp1)) as H2.
      destruct (peek_token s1) as [[token2|e|] s2] eqn:Ep2;
        [|destruct He as [<- _]; exact H2|exact I].
      destruct H2 as [He2 _]. cbn.
      split; [eapply extends_trans; [exact He|exact He2]|]. split; [discriminate|].
      intros _. apply token_type_eqb_eq in Et. apply Exists_exists. exists token.
      split; [|exact Et]. destruct He2 as (_ & _ & pulled & -> & _).
      apply in_or_app. left. eapply nth_error_In, Hn.
    + cbn. split; [exact He|]. split; [|congruence]. intros _.
      apply good_memo_put; [exact Hg1|]. split; [apply Hg1|]. split; [exact I|].
      intros _. exact Hp1.
Qed.

Open Scope list_scope.

(** *** The rules of the bodies *)

Lemma hoare_mark {A} (k : nat -> M A) (Q : nat -> A -> OptocadParser -> Prop) :
  (forall q, hoare (inv q) (k q) (Q q)) ->
  forall q, hoare (fun s => good s /\ pos s = q) (bind mark k) (Q q).
Proof.
  intros H q s [Hg <-]. unfold bind, mark. apply (H (pos s) s). split; [exact Hg|apply Hg].
Qed.

Lemma hoare_mark_comp {A} (k : nat -> M A) (K : A -> Prop) :
  (forall q, hoare (inv q) (k q) (fun a s' => good s' /\ K a)) -> comp (bind mark k) K.
Proof.
  intros H s Hg. unfold bind, mark. apply (H (pos s) s). split; [exact Hg|apply Hg].
Qed.

Lemma hoare_cond {A} q (m : M (option A)) (K : option A -> Prop)
      (k : A -> M (option (option result))) Kc :
  comp m K ->
  (forall x, K (Some x) -> hoare (inv q) (k x) (Qc Kc q)) ->
  hoare (inv q) (bind m (fun o => match o with Some x => k x | None => ret None end))
        (Qc Kc q).
Proof.
  intros Hm Hk. eapply hoare_bind; [apply comp_framed, Hm|].
  intros [x|].
  - intros s [Hi Hx]. now apply Hk.
  - apply hoare_ret. intros s [Hi _]. now split.
Qed.

Lemma hoare_then {A} q (m : M A) (K : A -> Prop) {B} (k : A -> M B) Q :
  comp m K ->
  (forall x, K x -> hoare (inv q) (k x) Q) ->
  hoare (inv q) (bind m k) Q.
Proof.
  intros Hm Hk. eapply hoare_bind; [apply comp_framed, Hm|].
  intros x s [Hi Hx]. now apply Hk.
Qed.

Lemma hoare_orelse K q chain next :
  hoare (inv q) chain (Qc K q) ->
  hoare (inv q) next (Qb K q) ->
  hoare (inv q) (orelse chain next) (Qb K q).
Proof.
  intros Hc Hn. unfold orelse. eapply hoare_bind; [exact Hc|].
  intros [v|].
  - apply hoare_ret. intros s [[Hg _] [Hv Hk]]. split; [exact Hg|]. split; [exact Hk|].
    intros E. congruence.
  - eapply hoare_weaken; [exact Hn| |]; cbn beta; [intros s H; apply H|tauto].
Qed.

Lemma hoare_reset q {A} (next : M A) Q :
  hoare (inv q) next Q -> hoare (inv q) (reset q ;;; next) Q.
Proof.
  intros H. eapply hoare_bind; [apply hoare_mark_reset|].
  intros u. eapply hoare_weaken; [exact H| |]; cbn beta; [intros s Hs; apply Hs|tauto].
Qed.

Lemma hoare_fail K q v : K v -> hoare (inv q) (reset q ;;; ret v) (Qb K q).
Proof.
  intros Hv. eapply hoare_bind; [apply hoare_mark_reset|].
  intros u. apply hoare_ret. intros s [[Hg _] Hp]. split; [exact Hg|]. split; [exact Hv|].
  intros _. exact Hp.
Qed.

Lemma hoare_returns (K : option result -> Prop) q r :
  K (Some r) -> hoare (inv q) (returns (Some r)) (Qc K q).
Proof.
  intros H. apply hoare_ret. intros s Hs. split; [exact Hs|]. now split.
Qed.

Lemma hoare_falls K q : hoare (inv q) falls_through (Qc K q).
Proof. apply hoare_ret. intros s Hs. now split. Qed.

Lemma hoare_raise_allowed {A} P e (Q : A -> OptocadParser -> Prop) :
  (forall f, allowed f e) -> hoare P (raise e) Q.
Proof. intros H. apply hoare_raise. intros s _. apply H. Qed.

Lemma comp_lookahead token_type : comp (negative_lookahead token_type) (fun _ => True).
Proof.
  eapply hoare_any_pos; [intros q; apply hoare_negative_lookahead|].
  cbn beta. intros q a s [Hg _]. now split.
Qed.

Lemma comp_positive_lookahead token_type : comp (positive_lookahead token_type) (fun _ => True).
Proof.
  eapply hoare_any_pos; [intros q; apply hoare_positive_lookahead|].
  cbn beta. intros q a s [Hg _]. now split.
Qed.

Lemma comp_expect_token arg :
  arg <> ENDMARKER -> comp (expect_token arg) (kind_ok (KToken arg)).
Proof. intros H. apply strong_comp, expect_token_strong, H. Qed.

(** *** Optional tokens and loops *)

Lemma maybe_token_strong arg :
  arg <> ENDMARKER ->
  forall q, hoare (fun s => good s /\ pos s = q) (maybe_token arg) (Qb (maybe_kind arg) q).
Proof.
  intros Harg. unfold maybe_token. apply hoare_mark. intros q.
  apply hoare_orelse.
  - eapply hoare_cond; [apply comp_expect_token, Harg|].
    intros x Hx. apply hoare_returns. exists x. split; [reflexivity|now right].
  - apply hoare_fail. exists REMPTY. split; [reflexivity|now left].
Qed.

Lemma comp_maybe_token arg : arg <> ENDMARKER -> comp (maybe_token arg) (maybe_kind arg).
Proof.
  intros Harg. eapply hoare_any_pos; [intros q; apply maybe_token_strong, Harg|].
  cbn beta. intros q a s (Hg & Hk & _). now split.
Qed.

Lemma maybe_trailing_comma_strong :
  forall q, hoare (fun s => good s /\ pos s = q) maybe_trailing_comma
                  (Qb (fun r => r <> None) q).
Proof.
  unfold maybe_trailing_comma. apply hoare_mark. intros q.
  apply hoare_orelse.
  - eapply hoare_cond; [apply comp_expect_token; discriminate|].
    intros x Hx. eapply hoare_then; [apply comp_positive_lookahead|]. intros nl _.
    eapply hoare_then.
    + instantiate (1 := fun _ => True). destruct nl.
      * intros s Hg. cbn. split; [apply extends_refl|now split].
      * apply comp_positive_lookahead.
    + intros [|] _; [apply hoare_returns; discriminate|apply hoare_falls].
  - apply hoare_fail. discriminate.
Qed.

Lemma comp_maybe_trailing_comma : comp maybe_trailing_comma (fun r => r <> None).
Proof.
  eapply hoare_any_pos; [intros q; apply maybe_trailing_comma_strong|].
  cbn beta. intros q a s (Hg & Hk & _). now split.
Qed.

Lemma comp_loop (step : M (option result)) K (Hstep : comp step K) fuel :
  forall nodes, comp (loop fuel step nodes) (fun _ => True).
Proof.
  induction fuel as [|fuel IH]; intros nodes; cbn [loop]; [intros s _; exact I|].
  unfold comp. eapply hoare_bind; [exact Hstep|].
  intros [node|].
  - eapply hoare_weaken; [apply IH| |]; cbn beta; tauto.
  - apply hoare_ret. tauto.
Qed.

(** A loop that fails leaves the cursor where it started. *)
Lemma loop_strong (step : M (option result)) K (Hstep : comp step K) fuel nonempty :
  forall q,
    hoare (fun s => good s /\ pos s = q)
          (mark_ <- mark ;;
           nodes <- loop fuel step [] ;;
           if Nat.leb nonempty (List.length nodes) then ret (Some nodes)
           else reset mark_ ;;; ret None)
          (fun r s' => good s' /\ (r = None -> pos s' = q)).
Proof.
  apply hoare_mark. intros q.
  eapply hoare_then; [eapply comp_loop, Hstep|]. intros nodes _.
  destruct (Nat.leb nonempty (List.length nodes)).
  - apply hoare_ret. intros s [Hg _]. split; [exact Hg|discriminate].
  - eapply hoare_bind; [apply hoare_mark_reset|].
    intros u. apply hoare_ret. intros s [[Hg _] Hp]. now split.
Qed.

Open Scope list_scope.

(** *** The sites that raise, and the store of commands *)

Lemma allowed_attribute f : allowed f (AttributeError "OptocadTokenizer" "lineno").
Proof. right. now left. Qed.

Lemma allowed_init f :
  allowed f (TypeError "OptocadSyntaxError.__init__(): wrong number of positional arguments").
Proof. right. right. now left. Qed.

Lemma allowed_concat f : allowed f (TypeError "can only concatenate str (not int) to str").
Proof. right. right. now right. Qed.

Lemma hoare_raise_structural_error {A} P message text (Q : A -> OptocadParser -> Prop) :
  hoare P (raise_structural_error message text) Q.
Proof. intros s _. cbn. apply allowed_attribute. Qed.

Lemma hoare_number_error P message token Q :
  hoare P (number_error message token) Q.
Proof. intros s _. cbn. apply allowed_init. Qed.

Lemma comp_new_command c : comp (new_command c) (fun _ => True).
Proof. intros s Hg. cbn. split; [exact (extends_refl s)|]. split; [exact Hg|exact I]. Qed.

Lemma comp_script_append ref : comp (script_append ref) (fun _ => True).
Proof. intros s Hg. cbn. split; [exact (extends_refl s)|]. split; [exact Hg|exact I]. Qed.

Lemma comp_append_to_previous c : comp (append_to_previous c) (fun _ => True).
Proof.
  intros s Hg. unfold append_to_previous. destruct (pop (optocad_script s)) as [[ref before]|].
  - cbn. split; [exact (extends_refl s)|]. split; [exact Hg|exact I].
  - cbn. apply allowed_attribute.
Qed.

(** A token that a rule other than NEWLINE names has its text. *)
Lemma token_text r token :
  type token = Rule r /\ has_text token /\ Rule r <> ENDMARKER ->
  r <> NEWLINE -> value token <> None.
Proof. intros (Ht & Hx & _) Hr. exact (Hx r Ht Hr). Qed.

(** *** The bodies of the productions *)

Lemma strong_body key (k : nat -> M (option result)) :
  (forall q, hoare (inv q) (k q) (Qb (kind_ok key) q)) -> strong key (bind mark k).
Proof. intros H q. exact (@hoare_mark _ k (fun q => Qb (kind_ok key) q) H q). Qed.

Lemma comp_loop_token fuel arg nonempty :
  arg <> ENDMARKER -> comp (loop_token fuel arg nonempty) (fun _ => True).
Proof.
  intros Harg. unfold loop_token.
  eapply hoare_any_pos;
    [intros q; eapply loop_strong; apply comp_expect_token, Harg|].
  cbn beta. intros q a s [Hg _]. now split.
Qed.

Ltac comp_solve Hself :=
  first [ apply Hself; discriminate
        | apply comp_expect_token; discriminate
        | apply comp_maybe_token; discriminate
        | apply comp_maybe_trailing_comma
        | apply comp_lookahead
        | apply comp_loop_token; discriminate
        | apply comp_new_command
        | apply comp_script_append
        | apply comp_append_to_previous ].

Ltac absurd_kind :=
  exfalso;
  match goal with
  | H : False |- _ => exact H
  | H : _ /\ has_text ?t /\ _, E : value ?t = None |- _ =>
      exact (token_text H ltac:(discriminate) E)
  | H : kind_ok (KToken _) (Some (RToken ?t)), E : value ?t = None |- _ =>
      exact (token_text H ltac:(discriminate) E)
  | H : _ = REMPTY \/ _ |- _ =>
      destruct H as [H|H]; [discriminate H|cbn in H; (contradiction || absurd_text H)]
  | H : kind_ok _ _ |- _ => cbn in H; contradiction
  | H : kind_of _ _ |- _ => cbn in H; contradiction
  end
with absurd_text H :=
  match goal with
  | E : value ?t = None |- _ => exact (token_text H ltac:(discriminate) E)
  end.

Ltac kind_solve :=
  cbn in *; auto;
  repeat match goal with
         | |- context [match ?x with _ => _ end] =>
             destruct x; cbn in *; try contradiction; auto
         end.

Ltac open_maybe :=
  repeat match goal with
         | H : maybe_kind _ (Some _) |- _ =>
             let E := fresh "E" in destruct H as (? & E & H); injection E as <-
         end.

Ltac chain Hself :=
  repeat
    (cbn beta; cbn [binary_alternatives unary_alternatives]; open_maybe;
     lazymatch goal with
     | |- hoare _ (returns (Some _)) _ => apply hoare_returns; kind_solve
     | |- hoare _ (returns (option_map _ (value ?t))) _ =>
         destruct (value t) eqn:?; cbn [option_map]; [|absurd_kind]
     | |- hoare _ falls_through _ => apply hoare_falls
     | |- hoare _ (raise_structural_error _ _) _ => apply hoare_raise_structural_error
     | |- hoare _ (number_error _ _) _ => apply hoare_number_error
     | |- hoare _ (raise (TypeError "can only concatenate str (not int) to str")) _ =>
         apply hoare_raise_allowed, allowed_concat
     | |- hoare _ (raise _) _ => absurd_kind
     | |- hoare _ type_error _ => absurd_kind
     | |- hoare _ (orelse _ _) _ => apply hoare_orelse
     | |- hoare _ (reset _ ;;; ret None) _ => apply hoare_fail; exact I
     | |- hoare _ (reset _ ;;; _) _ => apply hoare_reset
     | |- hoare _ (bind _ _) _ =>
         first [ eapply hoare_cond; [comp_solve Hself|intros ? ?]
               | eapply hoare_then; [comp_solve Hself|intros ? ?] ]
     | |- hoare _ (match ?x with _ => _ end) _ => destruct x eqn:?
     | |- hoare _ (if ?b then _ else _) _ => destruct b eqn:?
     end).


Section Bodies.

Variable self : Prod.name -> M (option result).
Hypothesis Hself :
  forall production, production <> Prod.start ->
    comp (self production) (kind_ok (KProd production)).

Lemma script_line_strong : strong (KProd Prod.script_line) (script_line self).
Proof. unfold script_line. apply strong_body. intros q. chain Hself. Qed.

Lemma command_strong : strong (KProd Prod.command) (command self).
Proof. unfold command. apply strong_body. intros q. chain Hself. Qed.

Lemma command_params_strong : strong (KProd Prod.command_params) (command_params self).
Proof. unfold command_params. apply strong_body. intros q. chain Hself. Qed.

Lemma command_value_list_strong :
  strong (KProd Prod.command_value_list) (command_value_list self).
Proof. unfold command_value_list. apply strong_body. intros q. chain Hself. Qed.

Lemma command_key_value_list_strong fuel :
  strong (KProd Prod.command_key_value_list) (command_key_value_list fuel self).
Proof. unfold command_key_value_list. apply strong_body. intros q. chain Hself. Qed.

Lemma positional_value_strong : strong (KProd Prod.positional_value) (positional_value self).
Proof. unfold positional_value. apply strong_body. intros q. chain Hself. Qed.

Lemma value_strong : strong (KProd Prod.value) (value_ self).
Proof. unfold value_. apply strong_body. intros q. chain Hself. Qed.

Lemma key_value_strong : strong (KProd Prod.key_value) (key_value self).
Proof. unfold key_value. apply strong_body. intros q. chain Hself. Qed.

Lemma action_strong : strong (KProd Prod.action) (action self).
Proof. unfold action. apply strong_body. intros q. chain Hself. Qed.

Lemma expr_strong : strong (KProd Prod.expr) (expr self).
Proof. unfold expr. apply strong_body. intros q. chain Hself. Qed.

Lemma expr1_strong : strong (KProd Prod.expr1) (expr1 self).
Proof. unfold expr1. apply strong_body. intros q. chain Hself. Qed.

Lemma expr2_strong : strong (KProd Prod.expr2) (expr2 self).
Proof. unfold expr2. apply strong_body. intros q. chain Hself. Qed.

Lemma expr3_strong : strong (KProd Prod.expr3) (expr3 self).
Proof. unfold expr3. apply strong_body. intros q. chain Hself. Qed.

Lemma expr4_strong : strong (KProd Prod.expr4) (expr4 self).
Proof. unfold expr4. apply strong_body. intros q. chain Hself. Qed.

End Bodies.
Lemma invalid_expr4_strong : strong (KProd Prod.invalid_expr4) invalid_expr4.
Proof.
  unfold invalid_expr4. apply strong_body. intros q.
  chain (fun p : Prod.name => @id (p <> Prod.start)).
Qed.

Open Scope list_scope.

(** *** The productions, whatever the fuel *)

Lemma hoare_diverge {A} P (Q : A -> OptocadParser -> Prop) : hoare P diverge Q.
Proof. intros s _. exact I. Qed.

Lemma expect_production_strong fuel :
  forall production, production <> Prod.start ->
    strong (KProd production) (expect_production fuel production).
Proof.
  induction fuel as [|fuel IH]; intros production Hp; cbn [expect_production].
  - intros q. apply hoare_diverge.
  - assert (Hself : forall p, p <> Prod.start ->
                    comp (expect_production fuel p) (kind_ok (KProd p)))
      by (intros p H; apply strong_comp, IH, H).
    destruct production; try congruence;
      first [ apply memoize_strong | apply memoize_left_rec_strong ].
    + now apply script_line_strong.
    + now apply command_strong.
    + now apply command_params_strong.
    + now apply command_value_list_strong.
    + now apply command_key_value_list_strong.
    + now apply positional_value_strong.
    + now apply value_strong.
    + now apply key_value_strong.
    + now apply action_strong.
    + now apply expr_strong.
    + now apply expr1_strong.
    + now apply expr2_strong.
    + now apply expr3_strong.
    + now apply expr4_strong.
    + apply invalid_expr4_strong.
Qed.

Lemma comp_expect_production fuel production :
  production <> Prod.start ->
  comp (expect_production fuel production) (kind_ok (KProd production)).
Proof. intros H. apply strong_comp, expect_production_strong, H. Qed.

(** [start]: it returns the script or fails, and when it fails the state is
    good. *)
Lemma start_spec fuel :
  hoare good (expect_production fuel Prod.start)
        (fun r s' => (r = None -> good s') /\
                     (r <> None ->
                      r = Some RScript /\
                      Exists (fun t => type t = ENDMARKER) (tokens s'))).
Proof.
  destruct fuel as [|fuel]; cbn [expect_production]; [apply hoare_diverge|].
  unfold start.
  eapply hoare_any_pos with (Q := fun q r s' =>
    (r = None -> good s') /\
    (r <> None -> r = Some RScript /\ Exists (fun t => type t = ENDMARKER) (tokens s')));
    [|intros q a s H; exact H].
  apply hoare_mark. intros q. unfold orelse.
  eapply hoare_bind with
    (Q1 := fun c s' =>
             match c with
             | Some v => v = Some RScript /\ Exists (fun t => type t = ENDMARKER) (tokens s')
             | None => inv q s'
             end).
  - eapply hoare_then.
    + unfold loop_production.
      eapply hoare_any_pos;
        [intros q0; eapply loop_strong; apply comp_expect_production; discriminate|].
      cbn beta. intros q0 a s [Hg _]. split; [exact Hg|]. instantiate (1 := fun _ => True).
      exact I.
    + intros [nodes|] _; [|apply hoare_ret; intros s Hs; exact Hs].
      intros s [Hg Hq]. unfold bind.
      pose proof (expect_endmarker Hg) as H.
      destruct (expect_token ENDMARKER s) as [[[r|]|e|] s1]; [| |exact H|exact I].
      * cbn. destruct H as [He [_ H]]. split; [exact He|].
        split; [reflexivity|]. apply H. discriminate.
      * cbn. destruct H as [He [H _]]. split; [exact He|].
        split; [now apply H|]. eapply mark_ok_extends; eassumption.
  - intros [v|].
    + apply hoare_ret. intros s [-> H]. split; [discriminate|]. intros _. now split.
    + eapply hoare_bind; [apply hoare_mark_reset|]. intros u.
      apply hoare_ret. intros s [[Hg _] _]. split; [intros _; exact Hg|congruence].
Qed.

(** *** The whole parse *)

Lemma diagnose_error_raises {A} s :
  good s ->
  match @_diagnose_error A s with
  | (Raise e, _) => allowed (parser_filename s) e
  | (Ok _, _) => False
  | (Diverge, _) => True
  end.
Proof.
  intros Hg. unfold _diagnose_error, bind.
  destruct (pop (tokens s)) as [[last before]|].
  - cbn. left. now exists "syntax error", (lineno last), (start_index last), (value last),
                           (stop_index last).
  - pose proof (@hoare_peek_token (pos s) s (conj Hg eq_refl)) as H.
    destruct (peek_token s) as [[t|e|] s1]; [|exact H|exact I].
    cbn. left. now exists "syntax error", (lineno t), (start_index t), (value t),
                         (stop_index t).
Qed.

Lemma parse_stream_raises fuel filename stream e :
  good (ready_parser filename stream) ->
  fst (parse_stream fuel filename stream) = Raise e ->
  allowed filename e.
Proof.
  intros Hg. unfold parse_stream, bind.
  pose proof (start_spec fuel Hg) as H.
  destruct (expect_production fuel Prod.start _) as [[[r|]|x|] s1]; cbn [fst].
  - discriminate.
  - destruct H as [(Hf & _) [Hg1 _]].
    pose proof (@diagnose_error_raises OptocadScript s1 (Hg1 eq_refl)) as H.
    destruct (_diagnose_error s1) as [[a|x|] s2]; cbn [fst]; try discriminate.
    intros [= <-]. cbn in Hf. now rewrite Hf in H.
  - intros [= <-]. exact H.
  - discriminate.
Qed.

Open Scope list_scope.

(** *** The stream of the tokenizer starts a good parser *)

Lemma matched_has_text token : matched_token token -> has_text token.
Proof. intros (r & text & _ & Hv) r' _ _. congruence. Qed.

Lemma read_loop_has_text matcher lines :
  forall line t, Forall has_text (fst (read_loop matcher lines line t)).
Proof.
  induction lines as [|l lines IH]; intros line t; cbn [read_loop].
  - unfold finish. destruct (raise_unclosed t); [constructor|].
    destruct (lacks_terminator line); cbn [fst]; repeat constructor;
      intros r Hr Hn; cbn in Hr; congruence.
  - destruct (scan_line matcher _ l _) as [[tokens1 e] t1] eqn:E.
    apply scan_line_tokens in E. destruct E as [Hm _].
    assert (H1 : Forall has_text tokens1)
      by (eapply Forall_impl; [|exact Hm]; apply matched_has_text).
    destruct e as [e|]; [exact H1|].
    specialize (IH l t1). destruct (read_loop matcher lines l t1) as [tokens2 e2].
    apply Forall_app. now split.
Qed.

Lemma good_ready_parser matcher fname text :
  good (ready_parser fname (tokenize_file matcher (text_file fname text))).
Proof.
  unfold good, stream_ok, ready_parser. cbn [tokens pos memos _token_stream parser_filename].
  split; [split; [cbn; lia|constructor]|]. split; [constructor|].
  cbn [app]. split.
  - unfold tokenize_file. cbn [name text_file]. apply read_loop_has_text.
  - destruct (snd (tokenize_file matcher (text_file fname text))) as [|e|] eqn:E; [| |exact I].
    + unfold tokenize_file in *. cbn [name contents text_file] in *.
      destruct (read_loop matcher _ _ _) as [tokens e] eqn:El. cbn [fst snd] in *. subst e.
      apply read_loop_done in El. destruct El as (body & tail & t' & -> & _ & Hf).
      apply Exists_app. right.
      apply finish_done in Hf. destruct Hf as [[_ ->]|[_ ->]].
      * right. now left.
      * now left.
    + left. unfold tokenize_file in E. cbn [name contents text_file] in E.
      destruct (read_loop matcher _ _ _) as [tokens e'] eqn:El. cbn [snd] in E. subst e'.
      apply token_error_is_syntax_error.
      apply read_loop_raises in El; [exact El|constructor].
Qed.

(** X9. On a file with a name, whatever the text, the token rules and the
    fuel, an exception that [parse_file] raises while its recursion stays
    within the fuel is one of: a syntax error about the file (of the
    tokenizer, or the one of [_diagnose_error]), the [AttributeError] of
    [self._tokenizer.lineno], the [TypeError] of the call of
    [OptocadSyntaxError] with too few arguments, and the [TypeError] of the
    concatenation of an action and a repeat count. The [RecursionError] that
    the interpreter raises on a nesting deeper than its limit is the end of
    the fuel here, the outcome [Diverge], and is outside this statement.
    That one apart, [peek_token] never indexes past the buffer
    ([IndexError]), never resumes the generator after its end
    ([StopIteration]), and no production gets from another a value of a type
    it cannot use. *)
Theorem parse_file_exceptions matcher fuel fname text e :
  fst (parse_file matcher fuel (text_file fname text)) = Raise e ->
  allowed fname e.
Proof.
  unfold parse_file. cbn [name text_file].
  apply parse_stream_raises, good_ready_parser.
Qed.

Lemma parse_file_exceptions_witness :
  fst (parse_file optocad_matcher 16 (text_file "script.ocd" ("m1 crx" ++ nl)%string)) =
    Raise (OptocadSyntaxError (PyStr "syntax error") (PyStr "script.ocd") (PyInt 1) (PyInt 7)
                              (PyStr nl) (PyInt 1) (PyInt 8)) /\
  allowed "script.ocd"
    (OptocadSyntaxError (PyStr "syntax error") (PyStr "script.ocd") (PyInt 1) (PyInt 7)
                        (PyStr nl) (PyInt 1) (PyInt 8)).
Proof.
  split; [reflexivity|].
  apply (@parse_file_exceptions optocad_matcher 16 "script.ocd" ("m1 crx" ++ nl)%string).
  reflexivity.
Defined.

(** X10. A production that fails leaves the cursor where it found it: from
    any good state of the parser, when a production other than [start]
    returns [None], [pos] is what it was before the call, whatever the memo
    table replays. *)
Theorem failed_production_rewinds fuel production s s' :
  production <> Prod.start ->
  good s ->
  expect_production fuel production s = (Ok None, s') ->
  pos s' = pos s.
Proof.
  intros Hp Hg E.
  pose proof (@expect_production_strong fuel production Hp (pos s) s (conj Hg eq_refl)) as H.
  rewrite E in H. destruct H as [_ (_ & _ & H)]. now apply H.
Qed.

(** X11. The buffer of tokens only grows: from any good state, after a
    production returns, the buffer is the buffer before the call followed by
    the tokens pulled from the generator, in their order; the cursor and
    every end position of the memo table lie within the buffer, so that the
    state is good again. *)
Theorem production_extends_the_buffer fuel production s r s' :
  production <> Prod.start ->
  good s ->
  expect_production fuel production s = (Ok r, s') ->
  good s' /\
  pos s' <= List.length (tokens s') /\
  exists pulled,
    tokens s' = tokens s ++ pulled /\
    fst (_token_stream s) = pulled ++ fst (_token_stream s').
Proof.
  intros Hp Hg E.
  pose proof (@expect_production_strong fuel production Hp (pos s) s (conj Hg eq_refl)) as H.
  rewrite E in H. destruct H as [(_ & _ & He) (Hg' & _)].
  split; [exact Hg'|]. split; [apply Hg'|exact He].
Qed.

(** X12. Every production returns a value of its own kind: from any good
    state, the result of a production that succeeds is what its callers
    unpack, a pair of parameters for [command_params], a list for
    [command_value_list], a dict for [command_key_value_list] and
    [key_value], a string for [action], a value for the expressions, and
    [invalid_expr4] never returns an error to raise. *)
Theorem production_result_kind fuel production s r s' :
  production <> Prod.start ->
  good s ->
  expect_production fuel production s = (Ok (Some r), s') ->
  kind_of production r.
Proof.
  intros Hp Hg E.
  pose proof (@expect_production_strong fuel production Hp (pos s) s (conj Hg eq_refl)) as H.
  rewrite E in H. destruct H as [_ (_ & H & _)]. exact H.
Qed.

Open Scope string_scope.

Lemma good_example_parser : good example_parser.
Proof. apply good_ready_parser. Qed.

Lemma failed_production_rewinds_witness :
  good example_parser /\
  fst (expect_production 16 Prod.action example_parser) = Ok None /\
  pos (snd (expect_production 16 Prod.action example_parser)) = pos example_parser.
Proof.
  split; [exact good_example_parser|]. split; [reflexivity|].
  apply (@failed_production_rewinds 16 Prod.action);
    [discriminate|exact good_example_parser|].
  vm_compute. reflexivity.
Defined.

Lemma production_extends_the_buffer_witness :
  good example_parser /\
  fst (expect_production 16 Prod.command example_parser) = Ok (Some (RCommand 0)) /\
  pos (snd (expect_production 16 Prod.command example_parser)) <=
  List.length (tokens (snd (expect_production 16 Prod.command example_parser))).
Proof.
  split; [exact good_example_parser|]. split; [reflexivity|].
  apply (@production_extends_the_buffer 16 Prod.command example_parser (Some (RCommand 0)));
    [discriminate|exact good_example_parser|].
  vm_compute. reflexivity.
Defined.

Lemma production_result_kind_witness :
  good example_parser /\
  fst (expect_production 16 Prod.command example_parser) = Ok (Some (RCommand 0)) /\
  kind_of Prod.command (RCommand 0).
Proof.
  split; [exact good_example_parser|]. split; [reflexivity|].
  apply (@production_result_kind 16 Prod.command example_parser (RCommand 0)
           (snd (expect_production 16 Prod.command example_parser)));
    [discriminate|exact good_example_parser|].
  vm_compute. reflexivity.
Defined.

Open Scope list_scope.

(** *** A parse that succeeds has read the whole stream *)

Lemma read_loop_last matcher lines line t tokens :
  read_loop matcher lines line t = (tokens, Done) ->
  exists init l, tokens = init ++ [mkToken l 1 1 ENDMARKER None] /\ no_endmarker init.
Proof.
  intros E. apply read_loop_done in E. destruct E as (body & tail & t' & -> & Hm & Hf).
  apply matched_no_endmarker in Hm.
  apply finish_done in Hf. destruct Hf as [[_ ->]|[_ ->]].
  - exists (body ++ [mkToken (_lineno t') (_index t' + 1) (_index t' + 1) NEWLINE None]),
           (_lineno t' + 1).
    split; [now rewrite <- app_assoc|].
    apply Forall_app. split; [exact Hm|]. constructor; [discriminate|constructor].
  - exists body, (_lineno t'). now split.
Qed.

Lemma pulled_to_the_end (pulled rest init : list Token) em :
  pulled ++ rest = init ++ [em] ->
  Exists (fun t => type t = ENDMARKER) pulled ->
  no_endmarker init ->
  rest = [].
Proof.
  intros E Hp Hi. destruct rest as [|y rest]; [reflexivity|]. exfalso.
  destruct (@exists_last _ (y :: rest)) as (rest' & x & Hr); [discriminate|].
  rewrite Hr, app_assoc in E.
  apply app_inj_tail in E. destruct E as [<- _].
  apply Forall_app in Hi. destruct Hi as [Hi _].
  apply Exists_exists in Hp. destruct Hp as (t & Hin & Ht).
  unfold no_endmarker in Hi. rewrite Forall_forall in Hi. exact (Hi t Hin Ht).
Qed.

(** X17. [parse_file] returns a script only for a text that the tokenizer
    reads to its end: when it returns, the generator has ended without an
    error, the parser has pulled every token of the stream into its buffer,
    ENDMARKER included, and the brackets and parentheses of the text are
    balanced. *)
Theorem parsed_text_is_fully_lexed matcher fuel f script :
  fst (parse_file matcher fuel f) = Ok script ->
  snd (tokenize_file matcher f) = Done /\
  tokens (snd (parse_file matcher fuel f)) = fst (tokenize_file matcher f) /\
  count_tokens is_opener (fst (tokenize_file matcher f)) =
  count_tokens is_closer (fst (tokenize_file matcher f)).
Proof.
  destruct f as [[filename|] text]; unfold parse_file; cbn [name]; [|discriminate].
  change {| name := Some filename; contents := text |} with (text_file filename text).
  pose proof (start_spec fuel (good_ready_parser matcher filename text)) as H.
  unfold parse_stream, bind.
  destruct (expect_production fuel Prod.start _) as [[[r|]|x|] s1]; cbn [fst snd];
    [| |discriminate|discriminate].
  - intros _. destruct H as [(_ & Hs & pulled & Ht & Hf) [_ H]].
    destruct H as [_ Hem]; [discriminate|].
    cbn [ready_parser tokens _token_stream fst snd app] in Ht, Hf, Hs.
    rewrite Ht in Hem.
    assert (Hd : snd (tokenize_file matcher (text_file filename text)) = Done).
    { destruct (snd (tokenize_file matcher (text_file filename text))) as [|e|] eqn:E;
        [reflexivity| |].
      - exfalso.
        assert (Hn : no_endmarker (fst (tokenize_file matcher (text_file filename text))))
          by (apply tokenize_file_endmarker; rewrite E; discriminate).
        rewrite Hf in Hn. apply Forall_app in Hn. destruct Hn as [Hn _].
        apply Exists_exists in Hem. destruct Hem as (t & Hin & Hty).
        unfold no_endmarker in Hn. rewrite Forall_forall in Hn. exact (Hn t Hin Hty).
      - exfalso.
        assert (Hn : no_endmarker (fst (tokenize_file matcher (text_file filename text))))
          by (apply tokenize_file_endmarker; rewrite E; discriminate).
        rewrite Hf in Hn. apply Forall_app in Hn. destruct Hn as [Hn _].
        apply Exists_exists in Hem. destruct Hem as (t & Hin & Hty).
        unfold no_endmarker in Hn. rewrite Forall_forall in Hn. exact (Hn t Hin Hty). }
    split; [exact Hd|].
    unfold tokenize_file in *. cbn [name contents text_file] in *.
    destruct (read_loop matcher _ _ _) as [stream e] eqn:El. cbn [fst snd] in *. subst e.
    rewrite Hd in El. split.
    + destruct (read_loop_last _ _ _ _ El) as (init & l & Hi & Hn).
      rewrite Hi in Hf. symmetry in Hf.
      apply (pulled_to_the_end _ _ Hf Hem) in Hn.
      rewrite Ht, Hi, <- Hf, Hn. now rewrite app_nil_r.
    + apply read_loop_depth in El. cbn [_nesting List.length] in El. lia.
  - destruct H as [_ [Hg _]].
    pose proof (@diagnose_error_raises OptocadScript s1 (Hg eq_refl)) as Hr.
    destruct (_diagnose_error s1) as [[a|x|] s2]; cbn [fst]; try discriminate.
    contradiction.
Qed.

Open Scope string_scope.

Lemma parsed_text_is_fully_lexed_witness :
  fst (parse_file optocad_matcher 40 (text_file "script.ocd" ("m1 (1)" ++ nl))) =
    Ok [mkCommand (Some "m1") [VStr "1"] [] []] /\
  snd (tokenize_file optocad_matcher (text_file "script.ocd" ("m1 (1)" ++ nl))) = Done /\
  List.length (tokens (snd (parse_file optocad_matcher 40
                              (text_file "script.ocd" ("m1 (1)" ++ nl))))) = 6.
Proof.
  split; [reflexivity|].
  destruct (@parsed_text_is_fully_lexed optocad_matcher 40
              (text_file "script.ocd" ("m1 (1)" ++ nl))
              [mkCommand (Some "m1") [VStr "1"] [] []] eq_refl) as (H1 & H2 & _).
  split; [exact H1|]. rewrite H2. reflexivity.
Defined.

Open Scope string_scope.

(** ** The text of an expression *)

Lemma append_assoc (a b c : string) : (a ++ b) ++ c = a ++ (b ++ c).
Proof. induction a as [|x a IH]; simpl; [reflexivity|]. now rewrite IH. Qed.

(** X13. The text of an expression has no parentheses and so forgets how the
    operators group: a left-nested and a right-nested binary expression over
    the same operands and operators have the same text. *)
Theorem expression_text_forgets_grouping op1 op2 a b c :
  Value_str (VBinary op2 (VBinary op1 a b) c) =
  Value_str (VBinary op1 a (VBinary op2 b c)).
Proof. cbn [Value_str]. now rewrite !append_assoc. Qed.

(** ** The keys of merged keyword lists *)

Open Scope list_scope.

Lemma has_key_spec d k : has_key d k = true <-> In k (keys d).
Proof.
  unfold has_key. rewrite existsb_exists. split.
  - intros (x & Hin & Hx). apply key_eqb_eq in Hx. now subst.
  - intros H. exists k. split; [exact H|apply key_eqb_refl].
Qed.

Lemma keys_set k v d :
  keys (dict_set k v d) = if has_key d k then keys d else keys d ++ [k].
Proof.
  unfold has_key, keys. induction d as [|[k0 v0] d IH]; cbn; [reflexivity|].
  destruct (key_eqb k k0); cbn; [reflexivity|]. rewrite IH.
  destruct (existsb (key_eqb k) (map fst d)); reflexivity.
Qed.

Lemma keys_update d :
  NoDup (keys d) ->
  forall acc,
    NoDup (keys acc) ->
    NoDup (keys (fold_left (fun d kv => dict_set (fst kv) (snd kv) d) d acc)) /\
    keys (fold_left (fun d kv => dict_set (fst kv) (snd kv) d) d acc) =
      keys acc ++ filter (fun k => negb (has_key acc k)) (keys d).
Proof.
  induction d as [|[k0 v0] d IH]; intros Hd acc Ha.
  - cbn. split; [exact Ha|now rewrite app_nil_r].
  - inversion Hd as [|? ? Hnotin Hd']; subst.
    assert (Ha' : NoDup (keys (dict_set k0 v0 acc))).
    { rewrite keys_set. destruct (has_key acc k0) eqn:E; [exact Ha|].
      apply NoDup_app; [exact Ha|repeat constructor; intros []|].
      intros x Hx [<-|[]]. apply has_key_spec in Hx. congruence. }
    destruct (IH Hd' _ Ha') as [H1 H2]. cbn [fold_left fst snd]. split; [exact H1|].
    rewrite H2, keys_set. change (keys ((k0, v0) :: d)) with (k0 :: keys d).
    cbn [filter]. destruct (has_key acc k0) eqn:E; cbn [negb].
    + f_equal. apply filter_ext_in. intros k Hk. unfold has_key. now rewrite keys_set, E.
    + rewrite <- app_assoc. cbn [app]. f_equal. f_equal. apply filter_ext_in. intros k Hk.
      unfold has_key at 1. rewrite keys_set, E, existsb_app. cbn [existsb].
      destruct (key_eqb k k0) eqn:Ek; [|now rewrite !orb_false_r].
      apply key_eqb_eq in Ek. subst. contradiction.
Qed.

(** X14. The merge of two keyword lists holds each key once, in the order of
    the first list followed by the keys that only the second list has. *)
Theorem merged_keys d1 d2 :
  NoDup (keys d1) -> NoDup (keys d2) ->
  NoDup (keys (dict_merge d1 d2)) /\
  keys (dict_merge d1 d2) = keys d1 ++ filter (fun k => negb (has_key d1 k)) (keys d2).
Proof.
  intros H1 H2. unfold dict_merge.
  destruct (@keys_update d1 H1 [] (NoDup_nil _)) as [Ha Hb].
  assert (Hk : filter (fun k => negb (has_key [] k)) (keys d1) = keys d1).
  { clear. induction (keys d1) as [|k l IH]; [reflexivity|].
    cbn [filter]. change (negb (has_key [] k)) with true. cbn iota. now rewrite IH. }
  rewrite Hk in Hb. change (keys []) with (@nil (option string)) in Hb. cbn [app] in Hb.
  destruct (@keys_update d2 H2 _ Ha) as [Hc Hd]. split; [exact Hc|].
  rewrite Hd, Hb. f_equal. apply filter_ext. intros k. unfold has_key. now rewrite Hb.
Qed.

Lemma merged_keys_witness :
  NoDup (keys [(Some "x", VStr "1"); (Some "y", VStr "2")]) /\
  NoDup (keys [(Some "z", VStr "3"); (Some "x", VStr "4")]) /\
  keys (dict_merge [(Some "x", VStr "1"); (Some "y", VStr "2")]
                   [(Some "z", VStr "3"); (Some "x", VStr "4")]) =
    [Some "x"; Some "y"; Some "z"].
Proof.
  assert (H1 : NoDup (keys [(Some "x", VStr "1"); (Some "y", VStr "2")])).
  { repeat constructor; cbn; intuition discriminate. }
  assert (H2 : NoDup (keys [(Some "z", VStr "3"); (Some "x", VStr "4")])).
  { repeat constructor; cbn; intuition discriminate. }
  split; [exact H1|]. split; [exact H2|].
  rewrite (proj2 (@merged_keys _ _ H1 H2)). reflexivity.
Defined.
Open Scope string_scope.
